(** * Response parsing and composite scoring of [GeminiAnalyzer]

    A shallow embedding of [gemini_analyzer.py]: the score normaliser, the
    composite scorer, the fallback generator, the four-strategy response
    parser and the retry loop of [analyze_videos], followed by the
    properties of the design document that concern them.

    Conventions of the embedding.
    - Python [float] is IEEE binary64, taken from [SpecFloat] with
      precision 53 and maximal exponent 1024; Python [int] is [Z].
    - Python [str] is [string]; the response text is ASCII.
    - A raised exception is the [Raise] branch of [result]; the handlers of
      the source decide by the exception class, which [exn] records.
    - A candidate video is a record of the keys the analyzer reads
      ([title], [like_ratio], [views], [views_formatted]) and of the other
      keys of its dictionary, which the analyzer only copies.  The like
      ratio is a float; the integer 0 the search writes for a video without
      views is the float 0.0 here, and both behave alike in the scorer.
    - The remote service is an oracle of the environment: the outcome of
      each call of [generate_content] is a text or an exception.
    - Creating the client, writing the log file, printing and sleeping are
      assumed to succeed; they do not influence any returned value. *)

From Stdlib Require Import ZArith List Bool Lia String Ascii.
From Stdlib Require Import Permutation Sorted ListDec.
From Stdlib Require Import Floats.SpecFloat.
Import ListNotations.

Local Open Scope Z_scope.

(** ** Exceptions and results *)

Inductive exn : Type :=
| JSONDecodeError
| AttributeError
| TypeError
| ValueError
| IndexError
| KeyError
| OverflowError
| ZeroDivisionError
| RemoteError.

Inductive result (A : Type) : Type :=
| Ok (a : A)
| Raise (e : exn).

Arguments Ok {A} a.
Arguments Raise {A} e.

Definition bind {A B : Type} (r : result A) (k : A -> result B) : result B :=
  match r with
  | Ok a => k a
  | Raise e => Raise e
  end.

Notation "x <- r ;; k" := (bind r (fun x => k))
  (at level 61, r at next level, right associativity).

Definition exn_eqb (a b : exn) : bool :=
  match a, b with
  | JSONDecodeError, JSONDecodeError
  | AttributeError, AttributeError
  | TypeError, TypeError
  | ValueError, ValueError
  | IndexError, IndexError
  | KeyError, KeyError
  | OverflowError, OverflowError
  | ZeroDivisionError, ZeroDivisionError
  | RemoteError, RemoteError => true
  | _, _ => false
  end.

(** ** Python floats *)

Module PyFloat.

Definition float : Type := spec_float.

Definition prec : Z := 53.
Definition emax : Z := 1024.

Definition mul : float -> float -> float := SFmul prec emax.
Definition add : float -> float -> float := SFadd prec emax.
Definition ltb : float -> float -> bool := SFltb.
Definition leb : float -> float -> bool := SFleb.
Definition eqb : float -> float -> bool := SFeqb.

Definition is_nan (x : float) : bool :=
  match x with
  | S754_nan => true
  | _ => false
  end.

(** [float(z)] for an [int]: nearest double, ties to even;
    [OverflowError] when the integer is too large. *)
Definition of_int (z : Z) : result float :=
  match binary_normalize prec emax z 0 false with
  | S754_infinity _ => Raise OverflowError
  | f => Ok f
  end.

(** The nearest double to [a / b] for [b <> 0], before the overflow test. *)
Definition quotient (a b : Z) : float :=
  let s := xorb (a <? 0) (b <? 0) in
  if a =? 0 then S754_zero s
  else
    let '(q, e, l) := SFdiv_core_binary prec emax (Z.abs a) 0 (Z.abs b) 0 in
    binary_round_aux prec emax s q e l.

(** [a / b] on two [int]s: true division, correctly rounded. *)
Definition int_truediv (a b : Z) : result float :=
  if b =? 0 then Raise ZeroDivisionError
  else
    match quotient a b with
    | S754_infinity _ => Raise OverflowError
    | f => Ok f
    end.

(** The integer nearest to [m * 2^e], ties to even. *)
Definition nearest_even (m e : Z) : Z :=
  if 0 <=? e then m * 2 ^ e
  else
    let d := 2 ^ (- e) in
    let q := m / d in
    let r := m mod d in
    match 2 * r ?= d with
    | Lt => q
    | Gt => q + 1
    | Eq => if Z.even q then q else q + 1
    end.

(** [round(x, 2)]: the decimal with two places nearest to the exact value
    of [x] (ties to even), converted back to the nearest double. *)
Definition round2 (x : float) : float :=
  match x with
  | S754_finite s m e =>
      let n := nearest_even (Z.pos m * 100) e in
      if n =? 0 then S754_zero s
      else quotient (if s then - n else n) 100
  | _ => x
  end.

(** The double nearest to the decimal [m * 10^e] for [0 <= m].  The two
    tests on [e] answer at once where the value is beyond every double
    ([10^310 > 2^1024]) or below half the least one
    ([m < 2^(log2 m + 1)] and [10^k > 2^(3k)]), so that huge exponents are
    not expanded. *)
Definition of_decimal (neg : bool) (m : Z) (e : Z) : float :=
  if m =? 0 then S754_zero neg
  else if 310 <=? e then S754_infinity neg
  else if Z.log2 m + 1 + 3 * e <? -1080 then S754_zero neg
  else if 0 <=? e then
    binary_normalize prec emax ((if neg then - m else m) * 10 ^ e) 0 false
  else quotient (if neg then - m else m) (10 ^ (- e)).

Definition zero : float := S754_zero false.
Definition one : float := Eval vm_compute in of_decimal false 1 0.
Definition fifty : float := Eval vm_compute in of_decimal false 50 0.
Definition hundred : float := Eval vm_compute in of_decimal false 100 0.

End PyFloat.

Import PyFloat.

(** ** Python values

    The values [json.loads] produces, which are also the values stored in
    the dictionaries of the analyzer.  [VNone] is both Python's [None] and
    the JSON [null]. *)

#[local] Set Warnings "-register-all".

Inductive value : Type :=
| VNone
| VBool (b : bool)
| VInt (z : Z)
| VFloat (f : float)
| VStr (s : string)
| VList (l : list value)
| VDict (d : list (string * value)).

Definition dict : Type := list (string * value).

Fixpoint lookup (k : string) (d : dict) : option value :=
  match d with
  | [] => None
  | (k', v) :: d' => if String.eqb k k' then Some v else lookup k d'
  end.

(** [dict(pairs)]: a later pair replaces the value of an earlier equal key,
    at the position of the earlier one. *)
Fixpoint dict_set (k : string) (v : value) (d : dict) : dict :=
  match d with
  | [] => [(k, v)]
  | (k', v') :: d' =>
      if String.eqb k k' then (k', v) :: d' else (k', v') :: dict_set k v d'
  end.

Definition dict_of_pairs (pairs : list (string * value)) : dict :=
  fold_left (fun d kv => dict_set (fst kv) (snd kv) d) pairs [].

(** ** Text primitives *)

Module Text.

Definition dquote : ascii := ascii_of_nat 34.
Definition squote : ascii := ascii_of_nat 39.
Definition backslash : ascii := ascii_of_nat 92.
Definition newline : ascii := ascii_of_nat 10.
Definition backquote : ascii := ascii_of_nat 96.

Definition code (c : ascii) : Z := Z.of_nat (nat_of_ascii c).
Definition chr (z : Z) : ascii := ascii_of_nat (Z.to_nat z).

(** [str.isspace] on ASCII, which is also [\s] of [re]. *)
Definition is_space (c : ascii) : bool :=
  let n := code c in
  ((9 <=? n) && (n <=? 13)) || ((28 <=? n) && (n <=? 32)).

Definition is_digit (c : ascii) : bool :=
  let n := code c in (48 <=? n) && (n <=? 57).

Definition digit_val (c : ascii) : Z := code c - 48.

Local Open Scope char_scope.
Local Open Scope string_scope.

(** [text.strip()] *)
Fixpoint lstrip (s : string) : string :=
  match s with
  | String c r => if is_space c then lstrip r else s
  | EmptyString => EmptyString
  end.

Fixpoint rstrip (s : string) : string :=
  match s with
  | EmptyString => EmptyString
  | String c r =>
      match rstrip r with
      | EmptyString => if is_space c then EmptyString else String c EmptyString
      | r' => String c r'
      end
  end.

Definition strip (s : string) : string := rstrip (lstrip s).

Fixpoint starts_with (p s : string) : bool :=
  match p, s with
  | EmptyString, _ => true
  | String a p', String b s' => Ascii.eqb a b && starts_with p' s'
  | String _ _, EmptyString => false
  end.

Fixpoint drop (n : nat) (s : string) : string :=
  match n, s with
  | O, _ => s
  | S n', String _ r => drop n' r
  | S _, EmptyString => EmptyString
  end.

Fixpoint map_chars (f : ascii -> ascii) (s : string) : string :=
  match s with
  | EmptyString => EmptyString
  | String c r => String (f c) (map_chars f r)
  end.

(** [text.replace(a, b)] for one-character [a] and [b]. *)
Definition replace (a b : ascii) (s : string) : string :=
  map_chars (fun c => if Ascii.eqb c a then b else c) s.

Fixpoint contains_char (a : ascii) (s : string) : bool :=
  match s with
  | EmptyString => false
  | String c r => Ascii.eqb c a || contains_char a r
  end.

(** [text.find(c)] and [text.rfind(c)], with [-1] when [c] is absent. *)
Fixpoint find (a : ascii) (s : string) : Z :=
  match s with
  | EmptyString => -1
  | String c r =>
      if Ascii.eqb c a then 0
      else let i := find a r in if Z.eqb i (-1) then -1 else i + 1
  end.

Fixpoint rfind (a : ascii) (s : string) : Z :=
  match s with
  | EmptyString => -1
  | String c r =>
      let i := rfind a r in
      if negb (Z.eqb i (-1)) then i + 1
      else if Ascii.eqb c a then 0 else -1
  end.

(** [text[i:j]] for [0 <= i] and [0 <= j]. *)
Definition slice (s : string) (i j : Z) : string :=
  substring (Z.to_nat i) (Z.to_nat (j - i)) s.

Fixpoint after_spaces (s : string) : string :=
  match s with
  | String c r => if is_space c then after_spaces r else s
  | EmptyString => EmptyString
  end.

Definition next_nonspace_is (a : ascii) (s : string) : bool :=
  match after_spaces s with
  | String c _ => Ascii.eqb c a
  | EmptyString => false
  end.

(** [re.sub(r'//.*?\n', '', text)]: every [//] that is followed by a line
    end on the same line is removed together with the rest of its line and
    the line end.  [dropping] is set while the scan is inside such a span. *)
Fixpoint sub_comments_from (dropping : bool) (s : string) : string :=
  match s with
  | EmptyString => EmptyString
  | String c r =>
      if dropping then
        if Ascii.eqb c newline then sub_comments_from false r
        else sub_comments_from true r
      else if Ascii.eqb c "/" && starts_with "/" r
              && contains_char newline (drop 1 r)
      then sub_comments_from true r
      else String c (sub_comments_from false r)
  end.

Definition sub_comments (s : string) : string := sub_comments_from false s.

(** [re.sub(r',\s*X', 'X', text)] for a closing bracket [X]. *)
Fixpoint sub_trailing_from (close : ascii) (dropping : bool) (s : string)
  : string :=
  match s with
  | EmptyString => EmptyString
  | String c r =>
      if dropping then
        if Ascii.eqb c close then String c (sub_trailing_from close false r)
        else sub_trailing_from close true r
      else if Ascii.eqb c "," && next_nonspace_is close r
      then sub_trailing_from close true r
      else String c (sub_trailing_from close false r)
  end.

Definition sub_trailing (close : ascii) (s : string) : string :=
  sub_trailing_from close false s.

(** The text before the first occurrence of [stop], when there is one. *)
Fixpoint before (stop : string) (s : string) : option string :=
  if starts_with stop s then Some EmptyString
  else
    match s with
    | EmptyString => None
    | String c r => option_map (String c) (before stop r)
    end.

Definition fence_open : string :=
  String backquote (String backquote (String backquote
    ("json" ++ String newline EmptyString))).

Definition fence_close : string :=
  String newline (String backquote (String backquote
    (String backquote EmptyString))).

(** [re.search(r'```json\n(.*?)\n```', text, re.DOTALL)]: group 1 of the
    leftmost match. *)
Fixpoint search_fence (s : string) : option string :=
  let here :=
    if starts_with fence_open s then before fence_close (drop 8 s) else None in
  match here with
  | Some g => Some g
  | None =>
      match s with
      | EmptyString => None
      | String _ r => search_fence r
      end
  end.

Definition index_key : string :=
  String dquote ("index" ++ String dquote EmptyString).

(** ["index"\s*:\s*\d] matches at the head of [s]. *)
Definition index_here (s : string) : bool :=
  starts_with index_key s &&
  match after_spaces (drop 7 s) with
  | String c u =>
      Ascii.eqb c ":" &&
      match after_spaces u with
      | String d _ => is_digit d
      | EmptyString => false
      end
  | EmptyString => false
  end.

Fixpoint has_index (s : string) : bool :=
  index_here s ||
  match s with
  | EmptyString => false
  | String _ r => has_index r
  end.

(** [re.findall(r'\{[^}]*"index"\s*:\s*\d+[^}]*\}', text)]: a match opens
    at a brace, runs to the first closing brace after it and has the index
    key in between; the scan resumes behind the match. *)
Fixpoint findall_from (dropping : bool) (s : string) : list string :=
  match s with
  | EmptyString => []
  | String c r =>
      if dropping then
        if Ascii.eqb c "}" then findall_from false r else findall_from true r
      else if Ascii.eqb c "{" then
        match before "}" r with
        | Some seg =>
            if has_index seg
            then String c (seg ++ "}") :: findall_from true r
            else findall_from false r
        | None => findall_from false r
        end
      else findall_from false r
  end.

Definition findall_entries (s : string) : list string := findall_from false s.

(** Writes a text that holds double quotes: every [~] stands for one. *)
Definition qq (s : string) : string := replace "~"%char dquote s.

End Text.

(** ** The decoder [json.loads] and the conversion [float(str)]

    Both belong to the Python runtime.  They are written out here after
    the grammar the runtime implements, so that the parser of the analyzer
    can be run on concrete response texts.  A decoding failure is the
    exception [JSONDecodeError]; the recursion limit of the interpreter is
    not modelled. *)

Module Json.

Import Text.
Local Open Scope char_scope.
Local Open Scope string_scope.

Definition is_ws (c : ascii) : bool :=
  let n := code c in
  Z.eqb n 32 || Z.eqb n 9 || Z.eqb n 10 || Z.eqb n 13.

Fixpoint skip_ws (s : string) : string :=
  match s with
  | String c r => if is_ws c then skip_ws r else s
  | EmptyString => EmptyString
  end.

(** A maximal run of decimal digits: its value, its length, the rest. *)
Fixpoint digits_from (acc : Z) (len : Z) (s : string) : Z * Z * string :=
  match s with
  | String c r =>
      if is_digit c then digits_from (10 * acc + digit_val c) (len + 1) r
      else (acc, len, s)
  | EmptyString => (acc, len, s)
  end.

Definition digits (s : string) : Z * Z * string := digits_from 0 0 s.

Definition hex_val (c : ascii) : option Z :=
  let n := code c in
  if Z.leb 48 n && Z.leb n 57 then Some (n - 48)
  else if Z.leb 97 n && Z.leb n 102 then Some (n - 87)
  else if Z.leb 65 n && Z.leb n 70 then Some (n - 55)
  else None.

Definition hex4 (s : string) : option (Z * string) :=
  match s with
  | String a (String b (String c (String d r))) =>
      match hex_val a, hex_val b, hex_val c, hex_val d with
      | Some x, Some y, Some z, Some w =>
          Some (((x * 16 + y) * 16 + z) * 16 + w, r)
      | _, _, _, _ => None
      end
  | _ => None
  end.

(** The UTF-8 bytes of a code point. *)
Definition utf8 (cp : Z) : string :=
  if Z.ltb cp 128 then String (chr cp) EmptyString
  else if Z.ltb cp 2048 then
    String (chr (192 + cp / 64)) (String (chr (128 + cp mod 64)) EmptyString)
  else if Z.ltb cp 65536 then
    String (chr (224 + cp / 4096))
      (String (chr (128 + (cp / 64) mod 64))
         (String (chr (128 + cp mod 64)) EmptyString))
  else
    String (chr (240 + cp / 262144))
      (String (chr (128 + (cp / 4096) mod 64))
         (String (chr (128 + (cp / 64) mod 64))
            (String (chr (128 + cp mod 64)) EmptyString))).

Definition simple_escape (e : ascii) : option ascii :=
  if Ascii.eqb e dquote then Some dquote
  else if Ascii.eqb e backslash then Some backslash
  else if Ascii.eqb e "/" then Some "/"%char
  else if Ascii.eqb e "b" then Some (chr 8)
  else if Ascii.eqb e "f" then Some (chr 12)
  else if Ascii.eqb e "n" then Some (chr 10)
  else if Ascii.eqb e "r" then Some (chr 13)
  else if Ascii.eqb e "t" then Some (chr 9)
  else None.

(** The body of a string literal, behind its opening quote (strict mode). *)
Fixpoint scanstring (fuel : nat) (s : string) : option (string * string) :=
  match fuel with
  | O => None
  | S n =>
      match s with
      | EmptyString => None
      | String c r =>
          if Ascii.eqb c dquote then Some (EmptyString, r)
          else if Ascii.eqb c backslash then
            match r with
            | EmptyString => None
            | String e r' =>
                if Ascii.eqb e "u" then
                  match hex4 r' with
                  | None => None
                  | Some (u, r2) =>
                      let joined :=
                        if Z.leb 55296 u && Z.leb u 56319
                           && starts_with (String backslash "u") r2
                        then
                          match hex4 (drop 2 r2) with
                          | None => None
                          | Some (u2, r3) =>
                              if Z.leb 56320 u2 && Z.leb u2 57343
                              then Some (65536 + (u - 55296) * 1024
                                         + (u2 - 56320), r3)
                              else Some (u, r2)
                          end
                        else Some (u, r2) in
                      match joined with
                      | None => None
                      | Some (cp, rest) =>
                          match scanstring n rest with
                          | Some (body, out) => Some (utf8 cp ++ body, out)
                          | None => None
                          end
                      end
                  end
                else
                  match simple_escape e with
                  | None => None
                  | Some ch =>
                      match scanstring n r' with
                      | Some (body, out) => Some (String ch body, out)
                      | None => None
                      end
                  end
            end
          else if Z.ltb (code c) 32 then None
          else
            match scanstring n r with
            | Some (body, out) => Some (String c body, out)
            | None => None
            end
      end
  end.

(** The number grammar: an optional minus sign, then [0] or a non-zero
    digit with further digits, an optional fraction of a point and at
    least one digit, an optional exponent of [e] or [E], an optional sign
    and at least one digit. *)
Definition scan_fraction (s : string) : option (Z * Z * string) :=
  match s with
  | String c r =>
      if Ascii.eqb c "." then
        let '(m, len, rest) := digits r in
        if Z.ltb 0 len then Some (m, len, rest) else None
      else None
  | EmptyString => None
  end.

Definition scan_exponent (s : string) : option (Z * string) :=
  match s with
  | String c r =>
      if Ascii.eqb c "e" || Ascii.eqb c "E" then
        let '(neg, r1) :=
          match r with
          | String sg r' =>
              if Ascii.eqb sg "-" then (true, r')
              else if Ascii.eqb sg "+" then (false, r')
              else (false, r)
          | EmptyString => (false, r)
          end in
        let '(x, len, rest) := digits r1 in
        if Z.ltb 0 len then Some (if neg then - x else x, rest) else None
      else None
  | EmptyString => None
  end.

Definition scan_number (s : string) : option (value * string) :=
  let '(neg, s1) :=
    match s with
    | String c r => if Ascii.eqb c "-" then (true, r) else (false, s)
    | EmptyString => (false, s)
    end in
  match s1 with
  | String c r =>
      if is_digit c then
        let '(int_part, after_int) :=
          if Ascii.eqb c "0" then (0, r)
          else let '(m, _, rest) := digits s1 in (m, rest) in
        let frac := scan_fraction after_int in
        let after_frac :=
          match frac with Some (_, _, rest) => rest | None => after_int end in
        let ex := scan_exponent after_frac in
        let rest :=
          match ex with Some (_, rest) => rest | None => after_frac end in
        match frac, ex with
        | None, None => Some (VInt (if neg then - int_part else int_part), rest)
        | _, _ =>
            let '(fm, flen) :=
              match frac with
              | Some (m, len, _) => (m, len)
              | None => (0, 0)
              end in
            let e := match ex with Some (x, _) => x | None => 0 end in
            let mantissa := int_part * 10 ^ flen + fm in
            Some (VFloat (of_decimal neg mantissa (e - flen)), rest)
        end
      else None
  | EmptyString => None
  end.

Definition scan_constant (s : string) : option (value * string) :=
  if starts_with "null" s then Some (VNone, drop 4 s)
  else if starts_with "true" s then Some (VBool true, drop 4 s)
  else if starts_with "false" s then Some (VBool false, drop 5 s)
  else
    match scan_number s with
    | Some r => Some r
    | None =>
        if starts_with "NaN" s then Some (VFloat S754_nan, drop 3 s)
        else if starts_with "Infinity" s
        then Some (VFloat (S754_infinity false), drop 8 s)
        else if starts_with "-Infinity" s
        then Some (VFloat (S754_infinity true), drop 9 s)
        else None
    end.

Fixpoint scan_once (fuel : nat) (s : string) : option (value * string) :=
  match fuel with
  | O => None
  | S n =>
      match s with
      | EmptyString => None
      | String c r =>
          if Ascii.eqb c dquote then
            match scanstring (S (String.length r)) r with
            | Some (body, rest) => Some (VStr body, rest)
            | None => None
            end
          else if Ascii.eqb c "{" then
            let r1 := skip_ws r in
            if starts_with "}" r1 then Some (VDict [], drop 1 r1)
            else
              match scan_members n r1 with
              | Some (pairs, rest) => Some (VDict (dict_of_pairs pairs), rest)
              | None => None
              end
          else if Ascii.eqb c "[" then
            let r1 := skip_ws r in
            if starts_with "]" r1 then Some (VList [], drop 1 r1)
            else
              match scan_elements n r1 with
              | Some (vs, rest) => Some (VList vs, rest)
              | None => None
              end
          else scan_constant s
      end
  end

with scan_elements (fuel : nat) (s : string)
  : option (list value * string) :=
  match fuel with
  | O => None
  | S n =>
      match scan_once n s with
      | None => None
      | Some (v, r) =>
          match skip_ws r with
          | String c r1 =>
              if Ascii.eqb c "]" then Some ([v], r1)
              else if Ascii.eqb c "," then
                match scan_elements n (skip_ws r1) with
                | Some (vs, rest) => Some (v :: vs, rest)
                | None => None
                end
              else None
          | EmptyString => None
          end
      end
  end

with scan_members (fuel : nat) (s : string)
  : option (list (string * value) * string) :=
  match fuel with
  | O => None
  | S n =>
      match s with
      | String q r =>
          if Ascii.eqb q dquote then
            match scanstring (S (String.length r)) r with
            | None => None
            | Some (key, r1) =>
                match skip_ws r1 with
                | String c r2 =>
                    if Ascii.eqb c ":" then
                      match scan_once n (skip_ws r2) with
                      | None => None
                      | Some (v, r3) =>
                          match skip_ws r3 with
                          | String d r4 =>
                              if Ascii.eqb d "}" then Some ([(key, v)], r4)
                              else if Ascii.eqb d "," then
                                match scan_members n (skip_ws r4) with
                                | Some (ps, rest) => Some ((key, v) :: ps, rest)
                                | None => None
                                end
                              else None
                          | EmptyString => None
                          end
                      end
                    else None
                | EmptyString => None
                end
            end
          else None
      | EmptyString => None
      end
  end.

(** [json.loads(s)] *)
Definition loads (s : string) : result value :=
  match scan_once (2 * String.length s + 2) (skip_ws s) with
  | Some (v, rest) =>
      match skip_ws rest with
      | EmptyString => Ok v
      | String _ _ => Raise JSONDecodeError
      end
  | None => Raise JSONDecodeError
  end.

End Json.

(** ** Builtins of the interpreter used by the analyzer *)

Module Builtin.

Import Text.
Local Open Scope char_scope.
Local Open Scope string_scope.

(** White space that [float] strips from an ASCII string. *)
Definition is_c_space (c : ascii) : bool :=
  let n := code c in (Z.leb 9 n && Z.leb n 13) || Z.eqb n 32.

Fixpoint lstrip_c (s : string) : string :=
  match s with
  | String c r => if is_c_space c then lstrip_c r else s
  | EmptyString => EmptyString
  end.

Fixpoint rstrip_c (s : string) : string :=
  match s with
  | EmptyString => EmptyString
  | String c r =>
      match rstrip_c r with
      | EmptyString =>
          if is_c_space c then EmptyString else String c EmptyString
      | r' => String c r'
      end
  end.

(** Underscores may only stand between two digits; they are dropped. *)
Fixpoint drop_underscores (prev : ascii) (s : string) : option string :=
  match s with
  | EmptyString => if Ascii.eqb prev "_" then None else Some EmptyString
  | String c r =>
      if Ascii.eqb c "_" then
        if is_digit prev then drop_underscores c r else None
      else if Ascii.eqb prev "_" && negb (is_digit c) then None
      else option_map (String c) (drop_underscores c r)
  end.

Definition lower (c : ascii) : ascii :=
  let n := code c in
  if Z.leb 65 n && Z.leb n 90 then chr (n + 32) else c.

(** The literal of [float(s)] behind the sign, when the whole of [s] is
    one: [inf], [infinity] or [nan] in any case, or decimal digits with an
    optional point and an optional exponent, with at least one digit before
    the exponent. *)
Definition float_literal (neg : bool) (s : string) : option float :=
  let low := map_chars lower s in
  if String.eqb low "inf" || String.eqb low "infinity"
  then Some (S754_infinity neg)
  else if String.eqb low "nan" then Some S754_nan
  else
    let '(ip, ilen, r1) := Json.digits s in
    let '(fp, flen, r2) :=
      match r1 with
      | String c r => if Ascii.eqb c "." then Json.digits r else (0, 0, r1)
      | EmptyString => (0, 0, r1)
      end in
    if Z.eqb (ilen + flen) 0 then None
    else
      let '(e, r3) :=
        match Json.scan_exponent r2 with
        | Some (x, rest) => (x, rest)
        | None => (0, r2)
        end in
      match r3 with
      | EmptyString => Some (of_decimal neg (ip * 10 ^ flen + fp) (e - flen))
      | String _ _ => None
      end.

(** [float(s)] for a [str]; [None] stands for [ValueError]. *)
Definition float_of_str (s : string) : option float :=
  match drop_underscores Ascii.zero (rstrip_c (lstrip_c s)) with
  | None => None
  | Some t =>
      match t with
      | String c r =>
          if Ascii.eqb c "-" then float_literal true r
          else if Ascii.eqb c "+" then float_literal false r
          else float_literal false t
      | EmptyString => None
      end
  end.

(** [float(x)] *)
Definition py_float (x : value) : result float :=
  match x with
  | VNone => Raise TypeError
  | VBool b => Ok (if b then one else PyFloat.zero)
  | VInt z => of_int z
  | VFloat f => Ok f
  | VStr s =>
      match float_of_str s with
      | Some f => Ok f
      | None => Raise ValueError
      end
  | VList _ => Raise TypeError
  | VDict _ => Raise TypeError
  end.

(** A Python number: an [int] or a [float]. *)
Inductive number : Type :=
| NInt (z : Z)
| NFloat (f : float).

(** The operand of a float operation.  The [int]s the analyzer converts
    this way are 0, 50 and 100, which are doubles. *)
Definition to_float (n : number) : float :=
  match n with
  | NInt z => binary_normalize prec emax z 0 false
  | NFloat f => f
  end.

(** [a < b] *)
Definition num_ltb (a b : number) : bool :=
  match a, b with
  | NInt x, NInt y => Z.ltb x y
  | _, _ => ltb (to_float a) (to_float b)
  end.

(** [min(a, b)] answers [b] only when [b < a]; [max(a, b)] answers [b]
    only when [b > a]. *)
Definition py_min (a b : number) : number := if num_ltb b a then b else a.
Definition py_max (a b : number) : number := if num_ltb a b then b else a.

(** [k in x] for a string [k] *)
Fixpoint infix (p s : string) : bool :=
  starts_with p s ||
  match s with
  | EmptyString => false
  | String _ r => infix p r
  end.

Definition is_str (k : string) (v : value) : bool :=
  match v with
  | VStr s => String.eqb s k
  | _ => false
  end.

Definition py_in (k : string) (x : value) : result bool :=
  match x with
  | VDict d => Ok (match lookup k d with Some _ => true | None => false end)
  | VList l => Ok (existsb (is_str k) l)
  | VStr s => Ok (infix k s)
  | _ => Raise TypeError
  end.

(** [x[k]] for a string [k] *)
Definition subscript (x : value) (k : string) : result value :=
  match x with
  | VDict d =>
      match lookup k d with
      | Some v => Ok v
      | None => Raise KeyError
      end
  | _ => Raise TypeError
  end.

Definition is_list (x : value) : bool :=
  match x with
  | VList _ => true
  | _ => false
  end.

(** [x.get(k, default)] *)
Definition get (x : value) (k : string) (default : value) : result value :=
  match x with
  | VDict d =>
      Ok (match lookup k d with Some v => v | None => default end)
  | _ => Raise AttributeError
  end.

(** [isinstance(x, int)], with the integer [x] stands for: [bool] is a
    subclass of [int]. *)
Definition as_int (x : value) : option Z :=
  match x with
  | VInt z => Some z
  | VBool b => Some (if b then 1 else 0)
  | _ => None
  end.

(** [l[i]] on a list: a negative [i] counts from the end. *)
Definition getitem {A : Type} (l : list A) (i : Z) : result A :=
  let n := Z.of_nat (List.length l) in
  let j := if Z.ltb i 0 then i + n else i in
  if Z.ltb j 0 then Raise IndexError
  else
    match nth_error l (Z.to_nat j) with
    | Some a => Ok a
    | None => Raise IndexError
    end.

(** [try: body except <handles>: pass], followed by [next]; a [body] that
    finishes has returned from the function. *)
Definition try_except {A : Type} (body : result A) (handles : exn -> bool)
  (next : result A) : result A :=
  match body with
  | Ok a => Ok a
  | Raise e => if handles e then next else Raise e
  end.

End Builtin.

(** ** The analyzer *)

Module GeminiAnalyzer.

Import Text Builtin.
Local Open Scope string_scope.

(** A candidate video: the keys the analyzer reads and the other keys of
    the dictionary, which it only copies. *)
Record video : Type := {
  title : string;
  like_ratio : float;
  views : Z;
  views_formatted : string;
  others : dict
}.

(** A result: [{**video, ...}] with the five computed keys. *)
Record scored : Type := {
  item : video;
  gemini_score : number;
  gemini_analysis : value;
  composite_score : float;
  like_ratio_contribution : float;
  views_contribution : float
}.

(** [self.WEIGHTS], [self.MAX_RETRIES] *)
Definition WEIGHT_gemini_score : float :=
  Eval vm_compute in of_decimal false 6 (-1).
Definition WEIGHT_like_ratio : float :=
  Eval vm_compute in of_decimal false 2 (-1).
Definition WEIGHT_views : float :=
  Eval vm_compute in of_decimal false 2 (-1).
Definition MAX_RETRIES : nat := 3.

Definition fallback_analysis : value := VStr "Could not analyze content".
Definition default_rationale : value := VStr "No rationale provided".

(** [_normalize_score] *)
Definition _normalize_score (raw_score : value) : number :=
  match py_float raw_score with
  | Ok f => py_max (NInt 0) (py_min (NInt 100) (NFloat f))
  | Raise _ => NFloat fifty
  end.

(** [max(v['views'] for v in videos) if videos else 1] *)
Definition max_views (videos : list video) : Z :=
  match videos with
  | [] => 1
  | v :: vs => fold_left Z.max (map views vs) (views v)
  end.

(** [(views / max_views * 100) if max_views > 0 else 0] *)
Definition normalized_views (v : Z) (mx : Z) : result number :=
  if Z.ltb 0 mx then
    q <- int_truediv v mx ;;
    Ok (NFloat (mul q hundred))
  else Ok (NInt 0).

(** The weighted sum of the three parts. *)
Definition weighted (score : number) (ratio : float) (nviews : number)
  : float :=
  add (add (mul WEIGHT_gemini_score (to_float score))
           (mul WEIGHT_like_ratio ratio))
      (mul WEIGHT_views (to_float nviews)).

Definition make_scored (v : video) (score : number) (analysis : value)
  (nviews : number) : scored :=
  {| item := v;
     gemini_score := score;
     gemini_analysis := analysis;
     composite_score := round2 (weighted score (like_ratio v) nviews);
     like_ratio_contribution := round2 (mul WEIGHT_like_ratio (like_ratio v));
     views_contribution := round2 (mul WEIGHT_views (to_float nviews)) |}.

(** [_create_fallback] *)
Fixpoint fallback_list (mx : Z) (videos : list video)
  : result (list scored) :=
  match videos with
  | [] => Ok []
  | v :: vs =>
      nviews <- normalized_views (views v) mx ;;
      rest <- fallback_list mx vs ;;
      Ok (make_scored v (NInt 50) fallback_analysis nviews :: rest)
  end.

Definition _create_fallback (videos : list video) : result (list scored) :=
  fallback_list (max_views videos) videos.

(** The body of the loop of [_format_results] for one entry. *)
Definition format_item (videos : list video) (mx : Z) (entry : value)
  : result scored :=
  index <- get entry "index" VNone ;;
  match as_int index with
  | None => Raise ValueError
  | Some i =>
      if Z.leb (Z.of_nat (List.length videos)) i then Raise ValueError
      else
        v <- getitem videos i ;;
        raw <- get entry "score" VNone ;;
        let score := _normalize_score raw in
        nviews <- normalized_views (views v) mx ;;
        rationale <- get entry "rationale" default_rationale ;;
        Ok (make_scored v score rationale nviews)
  end.

(** The loop: an entry that raises is skipped. *)
Fixpoint collect (videos : list video) (mx : Z) (entries : list value)
  : list scored :=
  match entries with
  | [] => []
  | entry :: rest =>
      match format_item videos mx entry with
      | Ok r => r :: collect videos mx rest
      | Raise _ => collect videos mx rest
      end
  end.

(** [sorted(results, key=..., reverse=True)]: the stable sort in
    descending key order, for keys the comparison [<] orders totally. *)
Section Sorted.

Context {A : Type} (key : A -> float).

Fixpoint insert_desc (x : A) (l : list A) : list A :=
  match l with
  | [] => [x]
  | y :: l' => if ltb (key x) (key y) then y :: insert_desc x l' else x :: l
  end.

Definition sorted_desc (l : list A) : list A := fold_right insert_desc [] l.

End Sorted.

(** ["analysis" not in data or not isinstance(data["analysis"], list)] *)
Definition invalid_format (data : value) : result bool :=
  present <- py_in "analysis" data ;;
  if negb present then Ok true
  else a <- subscript data "analysis" ;; Ok (negb (is_list a)).

Definition entries_of (data : value) : list value :=
  match data with
  | VDict d =>
      match lookup "analysis" d with
      | Some (VList l) => l
      | _ => []
      end
  | _ => []
  end.

(** [_format_results] *)
Definition _format_results (videos : list video) (data : value)
  : result (list scored) :=
  invalid <- invalid_format data ;;
  if invalid then _create_fallback videos
  else
    let results := collect videos (max_views videos) (entries_of data) in
    match sorted_desc composite_score results with
    | [] => _create_fallback videos
    | out => Ok out
    end.

Definition is_decode_error (e : exn) : bool := exn_eqb e JSONDecodeError.

Definition is_decode_or_attribute_error (e : exn) : bool :=
  exn_eqb e JSONDecodeError || exn_eqb e AttributeError.

(** Strategy 3 rewrites [text] before it decodes. *)
Definition repair (text : string) : string :=
  sub_trailing "]" (sub_trailing "}"
    (sub_comments (replace squote dquote text))).

Definition braces (text : string) : option string :=
  let start := find "{" text in
  let stop := rfind "}" text + 1 in
  if negb (start =? -1)%Z && negb (stop =? -1)%Z
  then Some (slice text start stop)
  else None.

(** The inner loop of strategy 4. *)
Fixpoint recover (matches : list string) : result (list value) :=
  match matches with
  | [] => Ok []
  | m :: ms =>
      match Json.loads m with
      | Ok v => rest <- recover ms ;; Ok (v :: rest)
      | Raise e => if is_decode_error e then recover ms else Raise e
      end
  end.

Definition strategy4 (videos : list video) (text : string)
  : result (list scored) :=
  let attempt :=
    analysis <- recover (findall_entries text) ;;
    match analysis with
    | [] => Ok None
    | _ :: _ =>
        r <- _format_results videos (VDict [("analysis", VList analysis)]) ;;
        Ok (Some r)
    end in
  match attempt with
  | Ok (Some r) => Ok r
  | Ok None => _create_fallback videos
  | Raise _ => _create_fallback videos
  end.

Definition strategy3 (videos : list video) (text : string)
  : result (list scored) :=
  let text := repair text in
  let body :=
    match braces text with
    | Some doc =>
        data <- Json.loads doc ;;
        r <- _format_results videos data ;; Ok (Some r)
    | None => Ok None
    end in
  match body with
  | Ok (Some r) => Ok r
  | Ok None => strategy4 videos text
  | Raise e => if is_decode_error e then strategy4 videos text else Raise e
  end.

Definition strategy2 (videos : list video) (text : string)
  : result (list scored) :=
  let body :=
    match search_fence text with
    | None => Raise AttributeError
    | Some json_str =>
        data <- Json.loads json_str ;; _format_results videos data
    end in
  try_except body is_decode_or_attribute_error (strategy3 videos text).

(** [_process_response] *)
Definition _process_response (videos : list video) (text : string)
  : result (list scored) :=
  let body := data <- Json.loads (strip text) ;; _format_results videos data in
  try_except body is_decode_error (strategy2 videos text).

(** *** The retry loop

    The process environment gives the credential and the outcome of each
    call of [generate_content] together with the read of [response.text]:
    a text or an exception.  The trace lists the calls the analyzer makes to
    its collaborators. *)

Record environment : Type := {
  api_key : option string;
  generate_content : nat -> result string
}.

Inductive event : Type :=
| Configure
| RateLimit
| Request (attempt : nat)
| Sleep (seconds : Z).

Record analyzer : Type := { configured : bool }.

(** [configure] *)
Definition configure (env : environment) (self : analyzer)
  : result analyzer :=
  match api_key env with
  | None => Raise ValueError
  | Some k =>
      if String.eqb k "" then Raise ValueError
      else Ok {| configured := true |}
  end.

(** [for attempt in range(self.MAX_RETRIES)]; a loop that ends without a
    [return] answers [None]. *)
Fixpoint attempts (env : environment) (videos : list video)
  (range : list nat) (trace : list event)
  : result (option (list scored)) * list event :=
  match range with
  | [] => (Ok None, trace)
  | attempt :: range' =>
      let trace := (trace ++ [RateLimit; Request attempt])%list in
      let body :=
        text <- generate_content env attempt ;;
        _process_response videos text in
      match body with
      | Ok r => (Ok (Some r), trace)
      | Raise _ =>
          if (attempt <? MAX_RETRIES - 1)%nat
          then attempts env videos range'
                 (trace ++ [Sleep (2 ^ Z.of_nat attempt)])%list
          else
            (r <- _create_fallback videos ;; Ok (Some r), trace)
      end
  end.

(** [analyze_videos] *)
Definition analyze_videos (env : environment) (self : analyzer)
  (videos : list video) (query : string)
  : result (option (list scored)) * analyzer * list event :=
  let configured_self :=
    if configured self then Ok (self, [])
    else self' <- configure env self ;; Ok (self', [Configure]) in
  match configured_self with
  | Raise e => (Raise e, self, [])
  | Ok (self, trace) =>
      match videos with
      | [] => (Ok (Some []), self, trace)
      | _ :: _ =>
          let '(r, trace) :=
            attempts env videos (seq 0 MAX_RETRIES) trace in
          (r, self, trace)
      end
  end.

End GeminiAnalyzer.

(** * Properties *)

(** ** The order of doubles *)

Module FloatOrder.

Ltac cmp_cases :=
  repeat match goal with
  | |- context [Z.compare ?a ?b] => destruct (Z.compare_spec a b)
  | |- context [Pos.compare_cont Eq ?a ?b] =>
      change (Pos.compare_cont Eq a b) with (Pos.compare a b);
      destruct (Pos.compare_spec a b)
  | H : context [Z.compare ?a ?b] |- _ => destruct (Z.compare_spec a b)
  | H : context [Pos.compare_cont Eq ?a ?b] |- _ =>
      change (Pos.compare_cont Eq a b) with (Pos.compare a b) in H;
      destruct (Pos.compare_spec a b)
  end.

Ltac by_cases3 x y z :=
  destruct x as [[|]|[|]| |[|] ? ?], y as [[|]|[|]| |[|] ? ?],
           z as [[|]|[|]| |[|] ? ?];
  simpl; try congruence; cmp_cases; simpl; try congruence; try lia.

Ltac by_cases2 x y :=
  destruct x as [[|]|[|]| |[|] ? ?], y as [[|]|[|]| |[|] ? ?];
  simpl; try congruence; cmp_cases; simpl; try congruence; try lia.

Lemma ltb_asym (x y : float) : ltb x y = true -> ltb y x = false.
Proof. unfold ltb, SFltb. by_cases2 x y. Qed.

Lemma ltb_leb (x y : float) : ltb x y = true -> leb x y = true.
Proof.
  unfold ltb, leb, SFltb, SFleb.
  destruct (SFcompare x y) as [[ | | ]|]; congruence.
Qed.

Lemma ltb_leb_flip (x y : float) : ltb x y = true -> leb y x = false.
Proof. unfold ltb, leb, SFltb, SFleb. by_cases2 x y. Qed.

(** Without a NaN the order is total. *)
Lemma not_ltb_leb (x y : float) :
  is_nan x = false -> is_nan y = false -> ltb x y = false -> leb y x = true.
Proof. unfold ltb, leb, SFltb, SFleb. by_cases2 x y. Qed.

Lemma leb_trans (x y z : float) :
  leb x y = true -> leb y z = true -> leb x z = true.
Proof. unfold leb, SFleb. by_cases3 x y z. Qed.

Lemma leb_not_nan (x y : float) :
  leb x y = true -> is_nan x = false /\ is_nan y = false.
Proof. unfold leb, SFleb. by_cases2 x y; auto. Qed.

Lemma eqb_refl (x : float) : is_nan x = false -> eqb x x = true.
Proof.
  unfold eqb, SFeqb.
  destruct x as [[|]|[|]| |[|] ? ?]; simpl; try congruence;
    rewrite Z.compare_refl;
    change (Pos.compare_cont Eq m m) with (Pos.compare m m);
    rewrite Pos.compare_refl; reflexivity.
Qed.

(** Two keys equal to the same third one are not ordered by [<]. *)
Lemma eqb_not_ltb (x y s : float) :
  eqb x s = true -> eqb y s = true -> ltb x y = false.
Proof. unfold eqb, ltb, SFeqb, SFltb. by_cases3 x y s. Qed.

Lemma leb_antisym_eqb (x y : float) :
  leb x y = true -> ltb x y = false -> eqb x y = true.
Proof.
  unfold leb, ltb, eqb, SFleb, SFltb, SFeqb.
  destruct (SFcompare x y) as [[ | | ]|]; congruence.
Qed.

End FloatOrder.

(** ** The stable descending sort *)

Section SortedFacts.

Import GeminiAnalyzer.

Context {A : Type} (key : A -> float).

(** [b] does not rank above [a]. *)
Definition descending (a b : A) : Prop := leb (key b) (key a) = true.

Definition same_key (s : float) (a : A) : bool := eqb (key a) s.

Lemma insert_desc_perm (x : A) (l : list A) :
  Permutation (x :: l) (insert_desc key x l).
Proof.
  induction l as [|y l IH]; simpl.
  - apply Permutation_refl.
  - destruct (ltb (key x) (key y)).
    + eapply Permutation_trans; [apply perm_swap|].
      apply perm_skip. exact IH.
    + apply Permutation_refl.
Qed.

Lemma sorted_desc_perm (l : list A) : Permutation l (sorted_desc key l).
Proof.
  induction l as [|x l IH]; simpl.
  - apply perm_nil.
  - eapply Permutation_trans; [apply perm_skip; exact IH|].
    apply insert_desc_perm.
Qed.

Lemma sorted_desc_length (l : list A) :
  List.length (sorted_desc key l) = List.length l.
Proof. symmetry. apply Permutation_length, sorted_desc_perm. Qed.

Lemma sorted_desc_nil (l : list A) : sorted_desc key l = [] -> l = [].
Proof.
  intros H. apply length_zero_iff_nil.
  rewrite <- sorted_desc_length, H. reflexivity.
Qed.

Lemma sorted_desc_In (l : list A) (a : A) :
  In a (sorted_desc key l) <-> In a l.
Proof.
  split; apply Permutation_in;
    [apply Permutation_sym|]; apply sorted_desc_perm.
Qed.

Lemma insert_desc_sorted (x : A) (l : list A) :
  is_nan (key x) = false ->
  Forall (fun a => is_nan (key a) = false) l ->
  StronglySorted descending l ->
  StronglySorted descending (insert_desc key x l).
Proof.
  intros Hx Hl Hs. induction Hs as [|y l Hs IH Hy]; simpl.
  - constructor; [constructor | constructor].
  - inversion Hl as [|? ? Hny Hl']; subst.
    destruct (ltb (key x) (key y)) eqn:E.
    + constructor; [apply IH; assumption|].
      apply (Permutation_Forall (insert_desc_perm x l)).
      constructor; [|exact Hy].
      apply FloatOrder.ltb_leb. exact E.
    + assert (Hyx : descending x y)
        by (apply FloatOrder.not_ltb_leb; assumption).
      constructor; [constructor; assumption|].
      constructor; [exact Hyx|].
      eapply Forall_impl; [|exact Hy].
      intros a Ha. unfold descending in *.
      eapply FloatOrder.leb_trans; eassumption.
Qed.

Lemma sorted_desc_sorted (l : list A) :
  Forall (fun a => is_nan (key a) = false) l ->
  StronglySorted descending (sorted_desc key l).
Proof.
  induction l as [|x l IH]; simpl; intros H.
  - constructor.
  - inversion H; subst. apply insert_desc_sorted; auto.
    apply (Permutation_Forall (sorted_desc_perm l)). assumption.
Qed.

Lemma insert_desc_filter (s : float) (x : A) (l : list A) :
  filter (same_key s) (insert_desc key x l) = filter (same_key s) (x :: l).
Proof.
  induction l as [|y l IH]; simpl.
  - reflexivity.
  - destruct (ltb (key x) (key y)) eqn:E; simpl.
    + simpl in IH. rewrite IH.
      destruct (same_key s x) eqn:Ex, (same_key s y) eqn:Ey; try reflexivity.
      unfold same_key in *.
      rewrite (FloatOrder.eqb_not_ltb _ _ _ Ex Ey) in E. discriminate.
    + reflexivity.
Qed.

(** Results of one key keep the order they had before the sort. *)
Lemma sorted_desc_stable (s : float) (l : list A) :
  filter (same_key s) (sorted_desc key l) = filter (same_key s) l.
Proof.
  induction l as [|x l IH]; simpl.
  - reflexivity.
  - rewrite insert_desc_filter. simpl. rewrite IH. reflexivity.
Qed.

End SortedFacts.

(** ** Ranges of the float operations *)

Module FloatRange.

(** Not a NaN and not negative: a zero, a positive double or [+inf]. *)
Definition nonneg (x : float) : bool :=
  match x with
  | S754_zero _ => true
  | S754_infinity s => negb s
  | S754_nan => false
  | S754_finite s _ _ => negb s
  end.

Definition positive_finite (x : float) : bool :=
  match x with
  | S754_finite s _ _ => negb s
  | _ => false
  end.

Lemma nonneg_not_nan (x : float) : nonneg x = true -> is_nan x = false.
Proof. destruct x; simpl; congruence. Qed.

Lemma leb_zero_nonneg (x : float) : leb zero x = true -> nonneg x = true.
Proof.
  destruct x as [s|[|]| |[|] m e]; simpl; unfold leb, SFleb; simpl;
    congruence.
Qed.

Lemma shr_1_bounds (mrs : shr_record) :
  0 <= shr_m mrs -> 0 <= shr_m (shr_1 mrs) <= shr_m mrs.
Proof.
  destruct mrs as [m r s]. simpl.
  destruct m as [|[p|p|]|p]; simpl; lia.
Qed.

Lemma iter_shr_1_bounds (p : positive) (mrs : shr_record) :
  0 <= shr_m mrs -> 0 <= shr_m (iter_pos shr_1 p mrs) <= shr_m mrs.
Proof.
  revert mrs. induction p as [p IH|p IH|]; simpl; intros mrs H.
  - pose proof (shr_1_bounds mrs H) as H1.
    pose proof (IH (shr_1 mrs) (proj1 H1)) as H2.
    pose proof (IH _ (proj1 H2)) as H3. lia.
  - pose proof (IH mrs H) as H2.
    pose proof (IH _ (proj1 H2)) as H3. lia.
  - apply shr_1_bounds; assumption.
Qed.

Lemma shr_bounds (mrs : shr_record) (e n : Z) :
  0 <= shr_m mrs ->
  0 <= shr_m (fst (shr mrs e n)) <= shr_m mrs /\
  snd (shr mrs e n) = Z.max e (e + n).
Proof.
  intros H. destruct n as [|p|p]; simpl.
  - split; lia.
  - split; [apply iter_shr_1_bounds; assumption | lia].
  - split; lia.
Qed.

Lemma shr_record_of_loc_m (m : Z) (l : location) :
  shr_m (shr_record_of_loc m l) = m.
Proof. destruct l as [|[ | | ]]; reflexivity. Qed.

Lemma shr_fexp_bounds (m e : Z) (l : location) :
  0 <= m ->
  0 <= shr_m (fst (shr_fexp prec emax m e l)) <= m /\
  snd (shr_fexp prec emax m e l) = Z.max e (fexp prec emax (Zdigits2 m + e)).
Proof.
  intros H. unfold shr_fexp.
  pose proof (shr_bounds (shr_record_of_loc m l) e
                (fexp prec emax (Zdigits2 m + e) - e)) as B.
  rewrite shr_record_of_loc_m in B. specialize (B H).
  destruct B as [B1 B2]. split; [exact B1|]. rewrite B2. lia.
Qed.

Lemma round_nearest_even_bounds (m : Z) (l : location) :
  0 <= m -> m <= round_nearest_even m l <= m + 1.
Proof.
  intros H. destruct l as [|[ | | ]]; simpl; try lia.
  destruct (Z.even m); lia.
Qed.

Lemma digits2_pos_gt (p : positive) : Z.pos p < 2 ^ Z.pos (digits2_pos p).
Proof.
  induction p as [p IH|p IH|]; simpl digits2_pos.
  - rewrite Pos2Z.inj_succ, Z.pow_succ_r by lia. lia.
  - rewrite Pos2Z.inj_succ, Z.pow_succ_r by lia. lia.
  - reflexivity.
Qed.

Lemma digits2_pos_le (p : positive) (k : Z) :
  Z.pos p < 2 ^ k -> 0 <= k -> Z.pos (digits2_pos p) <= k.
Proof.
  revert k. induction p as [p IH|p IH|]; simpl digits2_pos; intros k H Hk.
  - assert (k <> 0) by (intros ->; simpl in H; lia).
    replace k with (Z.succ (k - 1)) in H by lia.
    rewrite Z.pow_succ_r in H by lia.
    specialize (IH (k - 1)). rewrite Pos2Z.inj_succ. lia.
  - assert (k <> 0) by (intros ->; simpl in H; lia).
    replace k with (Z.succ (k - 1)) in H by lia.
    rewrite Z.pow_succ_r in H by lia.
    specialize (IH (k - 1)). rewrite Pos2Z.inj_succ. lia.
  - assert (k <> 0) by (intros ->; simpl in H; lia). lia.
Qed.

Lemma Zdigits2_le (m k : Z) : 0 <= m < 2 ^ k -> 0 <= k -> Zdigits2 m <= k.
Proof.
  intros [H0 H] Hk. destruct m as [|p|p]; simpl; try lia.
  apply digits2_pos_le; assumption.
Qed.

Lemma Zdigits2_mono (a b : Z) : 0 <= a <= b -> Zdigits2 a <= Zdigits2 b.
Proof.
  intros [Ha Hab]. destruct b as [|q|q]; try lia.
  - assert (a = 0) by lia. subst. simpl. lia.
  - apply Zdigits2_le; [|simpl; lia].
    split; [assumption|]. simpl. pose proof (digits2_pos_gt q). lia.
Qed.

(** The rounding of a non-negative mantissa is no NaN and has the sign
    asked for. *)
Lemma binary_round_aux_class (s : bool) (mx ex : Z) (lx : location) :
  0 <= mx ->
  match binary_round_aux prec emax s mx ex lx with
  | S754_zero s' => s' = s
  | S754_infinity s' => s' = s
  | S754_nan => False
  | S754_finite s' _ _ => s' = s
  end.
Proof.
  intros H. unfold binary_round_aux.
  pose proof (shr_fexp_bounds mx ex lx H) as [B1 _].
  destruct (shr_fexp prec emax mx ex lx) as [mrs' e']. simpl in B1.
  pose proof (round_nearest_even_bounds (shr_m mrs') (loc_of_shr_record mrs')
                (proj1 B1)) as R.
  pose proof (shr_fexp_bounds
                (round_nearest_even (shr_m mrs') (loc_of_shr_record mrs'))
                e' loc_Exact ltac:(lia)) as [C1 _].
  destruct (shr_fexp prec emax _ e' loc_Exact) as [mrs'' e'']. simpl in C1.
  destruct (shr_m mrs'') as [|p|p]; try lia; try reflexivity.
  destruct (e'' <=? emax - prec); reflexivity.
Qed.

(** A mantissa below [2^k] at exponent [ex] does not round to an infinity
    when the exponents it can reach stay in range. *)
Lemma binary_round_aux_finite (s : bool) (mx ex k : Z) (lx : location) :
  0 <= mx < 2 ^ k -> 1 <= k ->
  let e1 := Z.max ex (fexp prec emax (k + ex)) in
  Z.max e1 (fexp prec emax (k + 1 + e1)) <= emax - prec ->
  forall s', binary_round_aux prec emax s mx ex lx <> S754_infinity s'.
Proof.
  intros [H0 Hk] K e1 E s'. unfold binary_round_aux.
  pose proof (shr_fexp_bounds mx ex lx H0) as [B1 B2].
  destruct (shr_fexp prec emax mx ex lx) as [mrs' e']. simpl in B1, B2.
  pose proof (round_nearest_even_bounds (shr_m mrs') (loc_of_shr_record mrs')
                (proj1 B1)) as R.
  set (m1 := round_nearest_even (shr_m mrs') (loc_of_shr_record mrs')) in *.
  pose proof (shr_fexp_bounds m1 e' loc_Exact ltac:(lia)) as [C1 C2].
  destruct (shr_fexp prec emax m1 e' loc_Exact) as [mrs'' e'']. simpl in C1, C2.
  assert (D0 : Zdigits2 mx <= k) by (apply Zdigits2_le; lia).
  assert (D1 : Zdigits2 m1 <= k + 1).
  { apply Zdigits2_le; [|lia]. rewrite Z.pow_add_r by lia. 
    change (2 ^ 1) with 2. lia. }
  destruct (shr_m mrs'') as [|p|p]; try discriminate.
  destruct (e'' <=? emax - prec) eqn:L; [discriminate|].
  apply Z.leb_gt in L. exfalso.
  unfold fexp, emin, prec, emax in *. lia.
Qed.


Lemma div_core_spec (a b q e : Z) (l : location) :
  0 < a -> 0 < b ->
  SFdiv_core_binary prec emax a 0 b 0 = (q, e, l) ->
  e = Z.min (fexp prec emax (Zdigits2 a - Zdigits2 b)) 0 /\
  q = (a * 2 ^ (- e)) / b.
Proof.
  intros Ha Hb. unfold SFdiv_core_binary.
  replace (Zdigits2 a + 0 - (Zdigits2 b + 0)) with (Zdigits2 a - Zdigits2 b)
    by lia.
  change (0 - 0) with 0.
  set (e' := Z.min (fexp prec emax (Zdigits2 a - Zdigits2 b)) 0).
  assert (He : e' <= 0) by (unfold e'; lia).
  set (m' := match 0 - e' with
             | 0 => a
             | Z.pos _ => Z.shiftl a (0 - e')
             | Z.neg _ => 0
             end).
  assert (Hm : m' = a * 2 ^ (- e')).
  { unfold m'. destruct (0 - e') as [|p|p] eqn:E.
    - replace (- e') with 0 by lia. simpl. lia.
    - rewrite Z.shiftl_mul_pow2 by lia. f_equal. f_equal. lia.
    - lia. }
  destruct (Z.div_eucl m' b) as [q' r'] eqn:D.
  intros H. inversion H; subst q e l. split; [reflexivity|].
  rewrite <- Hm. unfold Z.div. rewrite D. reflexivity.
Qed.

Lemma quotient_nonneg (a b : Z) :
  0 <= a -> 0 < b -> nonneg (quotient a b) = true.
Proof.
  intros Ha Hb. unfold quotient.
  assert (Hs : xorb (a <? 0) (b <? 0) = false).
  { rewrite (proj2 (Z.ltb_ge a 0)), (proj2 (Z.ltb_ge b 0)) by lia.
    reflexivity. }
  rewrite Hs. destruct (a =? 0) eqn:E; [reflexivity|].
  apply Z.eqb_neq in E.
  rewrite (Z.abs_eq a), (Z.abs_eq b) by lia.
  destruct (SFdiv_core_binary prec emax a 0 b 0) as [[q e] l] eqn:D.
  destruct (div_core_spec a b q e l ltac:(lia) Hb D) as [_ Hq].
  assert (0 <= q).
  { subst q. apply Z.div_pos; [|lia].
    apply Z.mul_nonneg_nonneg; [lia|]. apply Z.pow_nonneg. lia. }
  pose proof (binary_round_aux_class false q e l H) as C.
  destruct (binary_round_aux prec emax false q e l); simpl; subst;
    try reflexivity; contradiction.
Qed.

(** A quotient of at most one does not overflow. *)
Lemma quotient_finite (a b : Z) (s : bool) :
  0 <= a <= b -> 0 < b -> quotient a b <> S754_infinity s.
Proof.
  intros [Ha Hab] Hb. unfold quotient.
  destruct (a =? 0) eqn:E; [discriminate|].
  apply Z.eqb_neq in E.
  rewrite (Z.abs_eq a), (Z.abs_eq b) by lia.
  destruct (SFdiv_core_binary prec emax a 0 b 0) as [[q e] l] eqn:D.
  destruct (div_core_spec a b q e l ltac:(lia) Hb D) as [He Hq].
  pose proof (Zdigits2_mono a b ltac:(lia)) as M.
  assert (E1 : -1074 <= e <= -53)
    by (unfold fexp, emin, prec, emax in He; lia).
  assert (P : 0 < 2 ^ (- e)) by (apply Z.pow_pos_nonneg; lia).
  assert (Q0 : 0 <= q).
  { subst q. apply Z.div_pos; [|lia]. apply Z.mul_nonneg_nonneg; lia. }
  assert (Q1 : q <= 2 ^ (- e)).
  { subst q. apply Z.div_le_upper_bound; [lia|]. nia. }
  apply (binary_round_aux_finite _ q e (- e + 1) l).
  - split; [assumption|]. rewrite Z.pow_add_r by lia.
    change (2 ^ 1) with 2. lia.
  - lia.
  - unfold fexp, emin, prec, emax. lia.
Qed.

Lemma int_truediv_le (a b : Z) :
  0 <= a <= b -> 0 < b ->
  int_truediv a b = Ok (quotient a b) /\ nonneg (quotient a b) = true.
Proof.
  intros H Hb. split; [|apply quotient_nonneg; lia].
  unfold int_truediv. rewrite (proj2 (Z.eqb_neq b 0)) by lia.
  pose proof (fun s => quotient_finite a b s H Hb) as F.
  destruct (quotient a b) as [ |s| | ]; try reflexivity.
  exfalso. apply (F s). reflexivity.
Qed.

Lemma mul_nonneg_l (w x : float) :
  positive_finite w = true -> nonneg x = true -> nonneg (mul w x) = true.
Proof.
  destruct w as [ | | |[|] mw ew]; simpl; try discriminate. intros _.
  destruct x as [sx|[|]| |[|] mx ex]; simpl; try discriminate;
    intros _; try reflexivity.
  pose proof (binary_round_aux_class false (Z.pos (mw * mx)) (ew + ex)
                loc_Exact ltac:(lia)) as C.
  destruct (binary_round_aux prec emax false (Z.pos (mw * mx)) (ew + ex)
              loc_Exact); simpl; subst; try reflexivity; contradiction.
Qed.

Lemma mul_nonneg_r (x w : float) :
  nonneg x = true -> positive_finite w = true -> nonneg (mul x w) = true.
Proof.
  destruct w as [ | | |[|] mw ew]; simpl; try discriminate.
  destruct x as [sx|[|]| |[|] mx ex]; simpl; try discriminate;
    intros _ _; try reflexivity.
  pose proof (binary_round_aux_class false (Z.pos (mx * mw)) (ex + ew)
                loc_Exact ltac:(lia)) as C.
  destruct (binary_round_aux prec emax false (Z.pos (mx * mw)) (ex + ew)
              loc_Exact); simpl; subst; try reflexivity; contradiction.
Qed.

Lemma add_nonneg (x y : float) :
  nonneg x = true -> nonneg y = true -> nonneg (add x y) = true.
Proof.
  destruct x as [sx|[|]| |[|] mx ex]; simpl; try discriminate;
    destruct y as [sy|[|]| |[|] my ey]; simpl; try discriminate;
    intros _ _; try reflexivity.
  - destruct sx, sy; reflexivity.
  - unfold add, SFadd, cond_Zopp.
    set (a := fst (shl_align mx ex (Z.min ex ey))).
    set (b := fst (shl_align my ey (Z.min ex ey))).
    change (Z.pos a + Z.pos b) with (Z.pos (a + b)).
    unfold binary_normalize, binary_round.
    destruct (shl_align (a + b) (Z.min ex ey) _) as [mz ez].
    pose proof (binary_round_aux_class false (Z.pos mz) ez loc_Exact
                  ltac:(lia)) as C.
    destruct (binary_round_aux prec emax false (Z.pos mz) ez loc_Exact);
      simpl; subst; try reflexivity; contradiction.
Qed.

Lemma nearest_even_nonneg (m e : Z) : 0 <= m -> 0 <= nearest_even m e.
Proof.
  intros H. unfold nearest_even. destruct (0 <=? e) eqn:E.
  - apply Z.mul_nonneg_nonneg; [assumption|]. apply Z.pow_nonneg. lia.
  - apply Z.leb_gt in E.
    assert (0 < 2 ^ (- e)) by (apply Z.pow_pos_nonneg; lia).
    assert (0 <= m / 2 ^ (- e)) by (apply Z.div_pos; lia).
    destruct (2 * (m mod 2 ^ (- e)) ?= 2 ^ (- e)); try lia.
    destruct (Z.even (m / 2 ^ (- e))); lia.
Qed.

Lemma round2_nonneg (x : float) : nonneg x = true -> nonneg (round2 x) = true.
Proof.
  destruct x as [sx|[|]| |[|] mx ex]; try discriminate;
    intros _; try reflexivity.
  unfold round2.
  pose proof (nearest_even_nonneg (Z.pos mx * 100) ex ltac:(lia)) as N.
  destruct (nearest_even (Z.pos mx * 100) ex =? 0) eqn:E; [reflexivity|].
  apply Z.eqb_neq in E. apply quotient_nonneg; lia.
Qed.

End FloatRange.

(** ** The scorer and the fallback *)

Import Text Builtin GeminiAnalyzer FloatRange.

Ltac inv H := inversion H; subst; clear H.

(** Splits a [bind] that answered [Ok]. *)
Lemma bind_ok {A B : Type} (r : result A) (k : A -> result B) (b : B) :
  bind r k = Ok b -> exists a, r = Ok a /\ k a = Ok b.
Proof. destruct r as [a|e]; simpl; [eauto | discriminate]. Qed.

(** The data model of a candidate: a like ratio that is not negative and
    a view count that is not negative. *)
Definition well_formed (v : video) : Prop :=
  leb zero (like_ratio v) = true /\ 0 <= views v.

Lemma fold_max_ge (l : list Z) (a : Z) :
  a <= fold_left Z.max l a /\ forall x, In x l -> x <= fold_left Z.max l a.
Proof.
  revert a. induction l as [|y l IH]; simpl; intros a.
  - split; [lia | contradiction].
  - destruct (IH (Z.max a y)) as [H1 H2]. split; [lia|].
    intros x [->|Hx]; [lia | auto].
Qed.

Lemma max_views_ge (videos : list video) (v : video) :
  In v videos -> views v <= max_views videos.
Proof.
  destruct videos as [|w ws]; simpl; [contradiction|].
  destruct (fold_max_ge (map views ws) (views w)) as [H1 H2].
  intros [->|H]; [exact H1|]. apply H2, in_map, H.
Qed.

Lemma normalized_views_nonneg (v mx : Z) (nviews : number) :
  0 <= v -> normalized_views v mx = Ok nviews ->
  nonneg (to_float nviews) = true.
Proof.
  intros Hv. unfold normalized_views. destruct (Z.ltb 0 mx) eqn:E.
  - apply Z.ltb_lt in E. intros H.
    apply bind_ok in H. destruct H as (q & Hq & H). inv H.
    simpl. apply mul_nonneg_r; [|reflexivity].
    unfold int_truediv in Hq. destruct (mx =? 0); [discriminate|].
    pose proof (quotient_nonneg v mx Hv E) as N.
    destruct (quotient v mx); inv Hq; exact N.
  - intros H. inv H. reflexivity.
Qed.

(** Within the batch the view ratio never overflows. *)
Lemma normalized_views_total (v mx : Z) :
  0 <= v <= mx -> exists nviews, normalized_views v mx = Ok nviews.
Proof.
  intros H. unfold normalized_views. destruct (Z.ltb 0 mx) eqn:E.
  - apply Z.ltb_lt in E.
    destruct (int_truediv_le v mx H E) as [-> _]. simpl. eauto.
  - eauto.
Qed.

Lemma fallback_list_shape (mx : Z) (videos : list video) (fb : list scored) :
  fallback_list mx videos = Ok fb ->
  Forall2 (fun v r =>
             exists nviews,
               normalized_views (views v) mx = Ok nviews /\
               r = make_scored v (NInt 50) fallback_analysis nviews)
          videos fb.
Proof.
  revert fb. induction videos as [|v vs IH]; simpl; intros fb H.
  - inv H. constructor.
  - apply bind_ok in H. destruct H as (nv & Hnv & H).
    apply bind_ok in H. destruct H as (rest & Hrest & H). inv H.
    constructor; [eauto | auto].
Qed.

Lemma fallback_list_total (mx : Z) (videos : list video) :
  Forall (fun v => 0 <= views v <= mx) videos ->
  exists fb, fallback_list mx videos = Ok fb.
Proof.
  induction 1 as [|v vs Hv _ IH]; simpl.
  - eauto.
  - destruct (normalized_views_total _ _ Hv) as [nv ->].
    destruct IH as [fb ->]. simpl. eauto.
Qed.

(** The fallback answers a list for every batch without negative view
    counts. *)
Lemma create_fallback_total (videos : list video) :
  Forall (fun v => 0 <= views v) videos ->
  exists fb, _create_fallback videos = Ok fb.
Proof.
  intros H. apply fallback_list_total.
  rewrite Forall_forall in *. intros v Hv. split; [auto|].
  apply max_views_ge, Hv.
Qed.

Lemma create_fallback_items (videos : list video) (fb : list scored) :
  _create_fallback videos = Ok fb -> map item fb = videos.
Proof.
  intros H. apply fallback_list_shape in H.
  induction H as [|v r vs rs (nv & _ & ->) _ IH]; simpl; [reflexivity|].
  rewrite IH. reflexivity.
Qed.

Lemma create_fallback_length (videos : list video) (fb : list scored) :
  _create_fallback videos = Ok fb -> List.length fb = List.length videos.
Proof.
  intros H. rewrite <- (create_fallback_items _ _ H), length_map. reflexivity.
Qed.

(** *** The score normaliser *)

Lemma normalize_score_unfold (raw : value) :
  _normalize_score raw =
  match py_float raw with
  | Ok f =>
      if ltb f hundred then (if ltb zero f then NFloat f else NInt 0)
      else NInt 100
  | Raise _ => NFloat fifty
  end.
Proof.
  unfold _normalize_score. destruct (py_float raw) as [f|e]; [|reflexivity].
  unfold py_min, py_max.
  assert (H1 : num_ltb (NFloat f) (NInt 100) = ltb f hundred) by reflexivity.
  rewrite H1. destruct (ltb f hundred).
  - assert (H2 : num_ltb (NInt 0) (NFloat f) = ltb zero f) by reflexivity.
    rewrite H2. reflexivity.
  - reflexivity.
Qed.

Lemma normalize_score_cases (raw : value) :
  _normalize_score raw = NInt 0 \/
  _normalize_score raw = NInt 100 \/
  exists f, _normalize_score raw = NFloat f /\
            ltb zero f = true /\ ltb f hundred = true.
Proof.
  rewrite normalize_score_unfold. destruct (py_float raw) as [f|e].
  - destruct (ltb f hundred) eqn:E1; [|auto].
    destruct (ltb zero f) eqn:E2; [|auto].
    right. right. exists f. auto.
  - right. right. exists fifty. repeat split; reflexivity.
Qed.

Lemma normalize_score_nonneg (raw : value) :
  nonneg (to_float (_normalize_score raw)) = true.
Proof.
  destruct (normalize_score_cases raw) as [-> | [-> | (f & -> & H & _)]];
    try reflexivity.
  simpl. apply leb_zero_nonneg, FloatOrder.ltb_leb, H.
Qed.

Lemma weighted_nonneg (score : number) (ratio : float) (nviews : number) :
  nonneg (to_float score) = true -> nonneg ratio = true ->
  nonneg (to_float nviews) = true ->
  nonneg (weighted score ratio nviews) = true.
Proof.
  intros H1 H2 H3. unfold weighted.
  repeat apply add_nonneg; apply mul_nonneg_l; auto.
Qed.

(** *** One entry of the analysis list *)

(** The item an entry refers to when its index passes the check of
    [_format_results] and the subscript that follows. *)
Definition accepted_index (n : nat) (entry : value) : option nat :=
  match get entry "index"%string VNone with
  | Ok index =>
      match as_int index with
      | Some i =>
          if Z.of_nat n <=? i then None
          else
            let j := if i <? 0 then i + Z.of_nat n else i in
            if j <? 0 then None else Some (Z.to_nat j)
      | None => None
      end
  | Raise _ => None
  end.

Lemma accepted_index_lt (n : nat) (entry : value) (p : nat) :
  accepted_index n entry = Some p -> (p < n)%nat.
Proof.
  unfold accepted_index.
  destruct (get entry "index"%string VNone) as [index|]; [|discriminate].
  destruct (as_int index) as [i|]; [|discriminate].
  destruct (Z.of_nat n <=? i) eqn:E1; [discriminate|].
  apply Z.leb_gt in E1.
  destruct (i <? 0) eqn:E2;
    [apply Z.ltb_lt in E2 | apply Z.ltb_ge in E2].
  - destruct (i + Z.of_nat n <? 0) eqn:E3; [discriminate|].
    apply Z.ltb_ge in E3. intros H. inv H. lia.
  - destruct (i <? 0) eqn:E3; [discriminate|]. intros H. inv H. lia.
Qed.

Lemma format_item_inv (videos : list video) (mx : Z) (entry : value)
  (r : scored) :
  format_item videos mx entry = Ok r ->
  exists p v raw rationale nviews,
    accepted_index (List.length videos) entry = Some p /\
    nth_error videos p = Some v /\
    get entry "score"%string VNone = Ok raw /\
    get entry "rationale"%string default_rationale = Ok rationale /\
    normalized_views (views v) mx = Ok nviews /\
    r = make_scored v (_normalize_score raw) rationale nviews.
Proof.
  unfold format_item, accepted_index. intros H.
  apply bind_ok in H. destruct H as (index & Hi & H). rewrite Hi.
  destruct (as_int index) as [i|]; [|discriminate].
  destruct (Z.of_nat (List.length videos) <=? i) eqn:E1; [discriminate|].
  apply bind_ok in H. destruct H as (v & Hv & H).
  apply bind_ok in H. destruct H as (raw & Hraw & H).
  apply bind_ok in H. destruct H as (nv & Hnv & H).
  apply bind_ok in H. destruct H as (rat & Hrat & H). inv H.
  unfold getitem in Hv.
  destruct ((if i <? 0 then i + Z.of_nat (List.length videos) else i) <? 0);
    [discriminate|].
  destruct (nth_error videos _) as [v'|] eqn:N; [|discriminate]. inv Hv.
  exists (Z.to_nat (if i <? 0 then i + Z.of_nat (List.length videos) else i)),
    v, raw, rat, nv.
  repeat split; assumption.
Qed.

Lemma format_item_composite_nonneg (videos : list video) (mx : Z)
  (entry : value) (r : scored) :
  Forall well_formed videos ->
  format_item videos mx entry = Ok r ->
  nonneg (composite_score r) = true.
Proof.
  intros W H.
  destruct (format_item_inv _ _ _ _ H)
    as (p & v & raw & rat & nv & _ & Hp & _ & _ & Hnv & ->).
  apply nth_error_In in Hp. rewrite Forall_forall in W.
  destruct (W v Hp) as [W1 W2]. simpl.
  apply round2_nonneg, weighted_nonneg.
  - apply normalize_score_nonneg.
  - apply leb_zero_nonneg, W1.
  - eapply normalized_views_nonneg; eassumption.
Qed.

Lemma collect_In (videos : list video) (mx : Z) (entries : list value)
  (r : scored) :
  In r (collect videos mx entries) ->
  exists entry, In entry entries /\ format_item videos mx entry = Ok r.
Proof.
  induction entries as [|e es IH]; simpl; [contradiction|].
  destruct (format_item videos mx e) as [r'|] eqn:E.
  - intros [<-|H]; [eauto|]. destruct (IH H) as (x & ? & ?). eauto.
  - intros H. destruct (IH H) as (x & ? & ?). eauto.
Qed.

(** The two ways [_format_results] answers a list. *)
Lemma format_results_inv (videos : list video) (data : value)
  (out : list scored) :
  _format_results videos data = Ok out ->
  (collect videos (max_views videos) (entries_of data) = [] /\
   _create_fallback videos = Ok out) \/
  (collect videos (max_views videos) (entries_of data) <> [] /\
   invalid_format data = Ok false /\
   out = sorted_desc composite_score
           (collect videos (max_views videos) (entries_of data))).
Proof.
  unfold _format_results. intros H.
  apply bind_ok in H. destruct H as (inv & Hinv & H).
  destruct inv.
  - left. split; [|exact H].
    unfold invalid_format in Hinv.
    apply bind_ok in Hinv. destruct Hinv as (present & Hp & Hinv).
    destruct data as [ | | | |s|l|d]; simpl in *; try reflexivity.
    destruct (lookup "analysis" d) as [[ | | | | |l| ]|]; simpl in *;
      try reflexivity.
    inv Hp. simpl in Hinv. discriminate.
  - destruct (sorted_desc composite_score _) as [|r rs] eqn:E.
    + left. split; [|exact H]. eapply sorted_desc_nil. exact E.
    + right. inv H. split; [|split; [exact Hinv | reflexivity]].
      intros C. rewrite C in E. discriminate.
Qed.

(** ** Sample batches and responses *)

Definition sample (t : string) (ratio : float) (v : Z) : video :=
  {| title := t;
     like_ratio := ratio;
     views := v;
     views_formatted := ""%string;
     others := [("channel"%string, VStr "example"%string)] |}.

Definition video_a : video := sample "Python Tutorial for Beginners" zero 100.
Definition video_b : video := sample "Advanced Python Tricks" zero 50.
Definition video_c : video := sample "Python in One Hour" zero 100.

Definition fresh : analyzer := {| configured := false |}.

(** The remote service answers every request with [text]. *)
Definition answering (text : string) : environment :=
  {| api_key := Some "key"%string; generate_content := fun _ => Ok text |}.

(** The remote service raises on every request. *)
Definition failing : environment :=
  {| api_key := Some "key"%string;
     generate_content := fun _ => Raise RemoteError |}.

(** The credential is not set. *)
Definition no_credential : environment :=
  {| api_key := None; generate_content := fun _ => Raise RemoteError |}.

Definition entry (index : value) (score : Z) (rationale : string) : value :=
  VDict [("index"%string, index); ("score"%string, VInt score);
         ("rationale"%string, VStr rationale)].

Definition document (entries : list value) : value :=
  VDict [("analysis"%string, VList entries)].

(** The value [analyze_videos] returns. *)
Definition returned (env : environment) (self : analyzer)
  (videos : list video) (query : string) : result (option (list scored)) :=
  fst (fst (analyze_videos env self videos query)).

(** The requests [analyze_videos] sends to the remote service. *)
Definition requests (env : environment) (self : analyzer)
  (videos : list video) (query : string) : list nat :=
  flat_map (fun ev => match ev with Request k => [k] | _ => [] end)
           (snd (analyze_videos env self videos query)).

(** The items the accepted entries of a list refer to, in entry order. *)
Fixpoint positions (n : nat) (entries : list value) : list nat :=
  match entries with
  | [] => []
  | e :: es =>
      match accepted_index n e with
      | Some p => p :: positions n es
      | None => positions n es
      end
  end.

(** ** Length of the result *)

Lemma collect_length (videos : list video) (mx : Z) (entries : list value) :
  (List.length (collect videos mx entries)
   <= List.length (positions (List.length videos) entries))%nat.
Proof.
  induction entries as [|e es IH]; simpl; [lia|].
  destruct (format_item videos mx e) as [r|] eqn:E.
  - destruct (format_item_inv _ _ _ _ E) as (p & _ & _ & _ & _ & -> & _).
    simpl. lia.
  - destruct (accepted_index (List.length videos) e); simpl; lia.
Qed.

Lemma positions_lt (n : nat) (entries : list value) (p : nat) :
  In p (positions n entries) -> (p < n)%nat.
Proof.
  induction entries as [|e es IH]; simpl; [contradiction|].
  destruct (accepted_index n e) as [q|] eqn:E; [|exact IH].
  intros [<-|H]; [|auto]. eapply accepted_index_lt, E.
Qed.

(** C1 (as amended).  The scorer returns at most one result per input
    item whenever no two accepted entries of the analysis list refer to the
    same item; the entries are not deduplicated, so a repeated index adds a
    result each time. *)
Theorem distinct_entries_bound (videos : list video) (data : value)
  (out : list scored) :
  _format_results videos data = Ok out ->
  NoDup (positions (List.length videos) (entries_of data)) ->
  (List.length out <= List.length videos)%nat.
Proof.
  intros H D.
  destruct (format_results_inv _ _ _ H) as [[_ F] | (_ & _ & ->)].
  - rewrite (create_fallback_length _ _ F). lia.
  - rewrite sorted_desc_length.
    eapply Nat.le_trans; [apply collect_length|].
    assert (I : incl (positions (List.length videos) (entries_of data))
                     (seq 0 (List.length videos))).
    { intros p Hp. apply in_seq. apply positions_lt in Hp. lia. }
    pose proof (NoDup_incl_length D I) as L.
    rewrite length_seq in L. exact L.
Qed.

Definition distinct_document : value :=
  document [entry (VInt 1) 80 "second"; entry (VInt 0) 80 "first"].

Lemma distinct_entries_bound_witness :
  (List.length
     (sorted_desc composite_score
        (collect [video_a; video_b] (max_views [video_a; video_b])
           (entries_of distinct_document)))
   <= List.length [video_a; video_b])%nat.
Proof.
  apply (distinct_entries_bound [video_a; video_b] distinct_document).
  - vm_compute. reflexivity.
  - vm_compute. repeat constructor; simpl; intuition discriminate.
Defined.

Definition repeated_text : string :=
  qq "{~analysis~: [{~index~: 0, ~score~: 90}, {~index~: 0, ~score~: 10}]}".

(** C1 (counterexample).  One item, a response that names index 0 twice:
    [analyze_videos] returns two results. *)
Lemma repeated_index_exceeds_input :
  exists out,
    returned (answering repeated_text) fresh [video_a] "python" = Ok (Some out)
    /\ List.length out = 2%nat /\ List.length [video_a] = 1%nat.
Proof.
  eexists. split; [vm_compute; reflexivity|]. split; reflexivity.
Qed.

(** ** Order of the result *)

Lemma collect_composite_not_nan (videos : list video) (entries : list value) :
  Forall well_formed videos ->
  Forall (fun r => is_nan (composite_score r) = false)
         (collect videos (max_views videos) entries).
Proof.
  intros W. apply Forall_forall. intros r Hr.
  destruct (collect_In _ _ _ _ Hr) as (e & _ & He).
  apply nonneg_not_nan. eapply format_item_composite_nonneg; eassumption.
Qed.


Lemma sample_well_formed (t : string) (v : Z) :
  0 <= v -> well_formed (sample t zero v).
Proof. intros H. split; [reflexivity | exact H]. Qed.


Definition tied_text : string :=
  qq "{~analysis~: [{~index~: 1, ~score~: 70}, {~index~: 0, ~score~: 70}]}".


(** ** Shape errors and index errors *)

(** A decoded document that is no dictionary, list or string makes the
    membership test of [_format_results] raise. *)
Lemma scalar_data_raises (videos : list video) (data : value) :
  match data with
  | VNone | VBool _ | VInt _ | VFloat _ => True
  | _ => False
  end ->
  _format_results videos data = Raise TypeError.
Proof. destruct data; simpl; intros H; try contradiction; reflexivity. Qed.

(** C3 (the code at the failing input).  On the response text [42] the
    direct decode succeeds with the integer 42, the membership test
    ["analysis" not in data] raises [TypeError], no handler of
    [_process_response] takes it, and the retry loop of [analyze_videos]
    asks the remote service again: three requests, then the fallback. *)
Theorem scalar_document_escapes_parser :
  Json.loads (strip "42") = Ok (VInt 42) /\
  _process_response [video_a] "42" = Raise TypeError /\
  requests (answering "42") fresh [video_a] "python" = [0; 1; 2]%nat /\
  returned (answering "42") fresh [video_a] "python"
  = bind (_create_fallback [video_a]) (fun r => Ok (Some r)).
Proof.
  split; [vm_compute; reflexivity|].
  split; [vm_compute; reflexivity|].
  split; vm_compute; reflexivity.
Qed.

(** An entry whose index is no integer, or is at least the number of
    items, is skipped. *)
Lemma rejected_entry_skipped (videos : list video) (mx : Z) (e : value)
  (es : list value) :
  accepted_index (List.length videos) e = None ->
  collect videos mx (e :: es) = collect videos mx es.
Proof.
  intros H. simpl. destruct (format_item videos mx e) as [r|] eqn:E.
  - destruct (format_item_inv _ _ _ _ E) as (p & _ & _ & _ & _ & A & _).
    congruence.
  - reflexivity.
Qed.

Lemma index_check_rejects (n : nat) (d : dict) :
  match lookup "index" d with
  | Some (VInt i) => Z.of_nat n <= i
  | Some (VBool b) => Z.of_nat n <= (if b then 1 else 0)
  | _ => True
  end ->
  accepted_index n (VDict d) = None.
Proof.
  unfold accepted_index. simpl.
  destruct (lookup "index" d) as [[ |b|i| | | | ]|]; simpl; try reflexivity.
  - intros H. rewrite (proj2 (Z.leb_le _ _) H). reflexivity.
  - intros H. rewrite (proj2 (Z.leb_le _ _) H). reflexivity.
Qed.

(** When every entry is skipped the scorer answers the fallback list. *)
Lemma all_rejected_fallback (videos : list video) (entries : list value) :
  Forall (fun e => accepted_index (List.length videos) e = None) entries ->
  _format_results videos (document entries) = _create_fallback videos.
Proof.
  intros H. unfold _format_results, document. simpl.
  assert (C : collect videos (max_views videos) entries = []).
  { induction H as [|e es He _ IH]; [reflexivity|].
    rewrite rejected_entry_skipped by exact He. exact IH. }
  rewrite C. reflexivity.
Qed.

Definition ninety : float := Eval vm_compute in of_decimal false 90 0.

(** C4 (the code at the failing input).  One item and the single entry
    of index -1: the index is outside [0, 1), yet the check
    [index >= len(videos)] lets it pass and [videos[-1]] is the last item,
    so the entry is scored with its own score 90 instead of being dropped;
    the fallback list, which the design expects, holds the neutral score 50.
    The JSON value [true] passes as index 1 in the same way. *)
Theorem negative_index_is_scored :
  _format_results [video_a] (document [entry (VInt (-1)) 90 "last"])
  = Ok [make_scored video_a (NFloat ninety) (VStr "last") (NFloat hundred)] /\
  _create_fallback [video_a]
  = Ok [make_scored video_a (NInt 50) fallback_analysis (NFloat hundred)] /\
  _format_results [video_a; video_b]
    (document [entry (VBool true) 90 "second"])
  = Ok [make_scored video_b (NFloat ninety) (VStr "second") (NFloat fifty)].
Proof.
  split; [vm_compute; reflexivity|].
  split; vm_compute; reflexivity.
Qed.

(** ** The score normaliser and the composite score *)

Lemma eqb_sym (x y : float) : eqb x y = true -> eqb y x = true.
Proof. unfold eqb, SFeqb. FloatOrder.by_cases2 x y. Qed.

Lemma below_zero_below_hundred (f : float) :
  ltb f zero = true -> ltb f hundred = true.
Proof.
  destruct f as [[|]|[|]| |[|] m e]; intros H;
    try discriminate H; reflexivity.
Qed.


Definition sixty_eight : float := Eval vm_compute in of_decimal false 68 0.
Definition fifty_eight : float := Eval vm_compute in of_decimal false 58 0.

Definition ranking_document : value :=
  document [entry (VInt 1) 80 "second"; entry (VInt 0) 80 "first"].


(** ** The retry loop *)

(** The analyzer is configured already, or the credential is set. *)
Definition can_configure (env : environment) (self : analyzer) : Prop :=
  configured self = true \/
  exists k, api_key env = Some k /\ k <> ""%string.

Definition request_of (ev : event) : list nat :=
  match ev with
  | Request k => [k]
  | _ => []
  end.

Lemma requests_unfold (env : environment) (self : analyzer)
  (videos : list video) (query : string) :
  requests env self videos query
  = flat_map request_of (snd (analyze_videos env self videos query)).
Proof. reflexivity. Qed.

Lemma attempts_all_fail (env : environment) (videos : list video)
  (trace : list event) :
  (forall attempt, (attempt < MAX_RETRIES)%nat ->
                   exists e, generate_content env attempt = Raise e) ->
  attempts env videos (seq 0 MAX_RETRIES) trace
  = (bind (_create_fallback videos) (fun r => Ok (Some r)),
     trace ++ [RateLimit; Request 0; Sleep 1; RateLimit; Request 1; Sleep 2;
               RateLimit; Request 2]).
Proof.
  intros H. unfold MAX_RETRIES in *.
  destruct (H 0%nat ltac:(lia)) as [e0 H0].
  destruct (H 1%nat ltac:(lia)) as [e1 H1].
  destruct (H 2%nat ltac:(lia)) as [e2 H2].
  cbn [seq attempts]. rewrite H0, H1, H2. cbn [bind Nat.ltb Nat.leb Nat.sub].
  repeat rewrite <- app_assoc. reflexivity.
Qed.

Lemma configure_step (env : environment) (self : analyzer) :
  can_configure env self ->
  exists trace,
    (if configured self then Ok (self, [])
     else bind (configure env self) (fun self' => Ok (self', [Configure])))
    = Ok ({| configured := true |}, trace) /\
    flat_map request_of trace = [].
Proof.
  intros [C | (k & K & N)].
  - rewrite C. exists []. destruct self as [c]. simpl in C. subst c.
    split; reflexivity.
  - destruct (configured self) eqn:C.
    + exists []. destruct self as [c]. simpl in C. subst c.
      split; reflexivity.
    + exists [Configure]. unfold configure. rewrite K.
      destruct (String.eqb k "") eqn:E.
      * apply String.eqb_eq in E. contradiction.
      * split; reflexivity.
Qed.

(** C7.  For a non-empty batch of candidates without negative view
    counts, once the analyzer can be configured: when the remote call
    raises on all three attempts, [analyze_videos] returns the list of
    [_create_fallback], after exactly three requests.  That list has one
    result per input item, in input order, each with the score 50, the
    fixed rationale and the composite score of the weighted formula. *)
Theorem exhausted_retries_fallback (env : environment) (self : analyzer)
  (videos : list video) (query : string) :
  videos <> [] ->
  can_configure env self ->
  (forall attempt, (attempt < MAX_RETRIES)%nat ->
                   exists e, generate_content env attempt = Raise e) ->
  Forall (fun v => 0 <= views v) videos ->
  exists fb,
    returned env self videos query = Ok (Some fb) /\
    _create_fallback videos = Ok fb /\
    requests env self videos query = [0; 1; 2]%nat /\
    Forall2 (fun v r =>
               item r = v /\ gemini_score r = NInt 50 /\
               gemini_analysis r = VStr "Could not analyze content" /\
               exists popularity,
                 normalized_views (views v) (max_views videos)
                 = Ok popularity /\
                 composite_score r
                 = round2 (weighted (NInt 50) (like_ratio v) popularity))
            videos fb.
Proof.
  intros NE C F W.
  destruct (create_fallback_total videos W) as [fb Hfb].
  exists fb.
  destruct (configure_step env self C) as (trace & T & R).
  assert (A : analyze_videos env self videos query
              = (Ok (Some fb), {| configured := true |},
                 trace ++ [RateLimit; Request 0; Sleep 1; RateLimit;
                           Request 1; Sleep 2; RateLimit; Request 2])).
  { unfold analyze_videos. rewrite T.
    destruct videos as [|v vs]; [contradiction|].
    rewrite (attempts_all_fail env (v :: vs) trace F), Hfb. reflexivity. }
  split; [unfold returned; rewrite A; reflexivity|].
  split; [exact Hfb|].
  split.
  - rewrite requests_unfold, A. cbn [snd].
    rewrite flat_map_app, R. reflexivity.
  - apply fallback_list_shape in Hfb.
    eapply Forall2_impl; [|exact Hfb].
    intros v r (nv & Hnv & ->). repeat split. exists nv. split; [exact Hnv|].
    reflexivity.
Qed.

Lemma exhausted_retries_fallback_witness :
  exists fb,
    returned failing fresh [video_b; video_a] "python" = Ok (Some fb) /\
    _create_fallback [video_b; video_a] = Ok fb /\
    requests failing fresh [video_b; video_a] "python" = [0; 1; 2]%nat /\
    Forall2 (fun v r =>
               item r = v /\ gemini_score r = NInt 50 /\
               gemini_analysis r = VStr "Could not analyze content" /\
               exists popularity,
                 normalized_views (views v) (max_views [video_b; video_a])
                 = Ok popularity /\
                 composite_score r
                 = round2 (weighted (NInt 50) (like_ratio v) popularity))
            [video_b; video_a] fb.
Proof.
  apply (exhausted_retries_fallback failing fresh [video_b; video_a] "python").
  - discriminate.
  - right. exists "key"%string. split; [reflexivity | discriminate].
  - intros attempt _. exists RemoteError. reflexivity.
  - repeat constructor; simpl; lia.
Defined.

(** C8 (as amended).  Once the analyzer can be configured,
    [analyze_videos] on the empty list returns the empty list and sends no
    request.  The configuration step comes before the test for the empty
    list. *)
Theorem empty_input_no_request (env : environment) (self : analyzer)
  (query : string) :
  can_configure env self ->
  returned env self [] query = Ok (Some []) /\
  requests env self [] query = [].
Proof.
  intros C. destruct (configure_step env self C) as (trace & T & R).
  assert (A : analyze_videos env self [] query
              = (Ok (Some []), {| configured := true |}, trace)).
  { unfold analyze_videos. rewrite T. reflexivity. }
  split.
  - unfold returned. rewrite A. reflexivity.
  - rewrite requests_unfold, A. exact R.
Qed.

Lemma empty_input_no_request_witness :
  returned failing fresh [] "python" = Ok (Some []) /\
  requests failing fresh [] "python" = [].
Proof.
  apply (empty_input_no_request failing fresh "python").
  right. exists "key"%string. split; [reflexivity | discriminate].
Defined.

(** C8 (counterexample).  On an analyzer that is not configured and
    without the credential, [analyze_videos] on the empty list raises the
    configuration error instead of returning the empty list. *)
Lemma empty_input_unconfigured_raises :
  returned no_credential fresh [] "python" = Raise ValueError /\
  requests no_credential fresh [] "python" = [].
Proof. split; reflexivity. Qed.

(** ** Where a returned list comes from *)

(** A list is the fallback list of the batch or a list the scorer made
    of some decoded document. *)
Definition produced (videos : list video) (out : list scored) : Prop :=
  _create_fallback videos = Ok out \/
  exists data, _format_results videos data = Ok out.

Lemma decode_then_format (videos : list video) (r : result value)
  (out : list scored) :
  bind r (fun data => _format_results videos data) = Ok out ->
  produced videos out.
Proof.
  intros H. apply bind_ok in H. destruct H as (data & _ & H).
  right. exists data. exact H.
Qed.

Lemma strategy4_produced (videos : list video) (text : string)
  (out : list scored) :
  strategy4 videos text = Ok out -> produced videos out.
Proof.
  unfold strategy4.
  destruct (recover (findall_entries text)) as [[|a l]|e]; simpl.
  - intros H. left. exact H.
  - destruct (_format_results videos _) as [r|e] eqn:E; simpl.
    + intros H. inv H. right. eexists. exact E.
    + intros H. left. exact H.
  - intros H. left. exact H.
Qed.

Lemma strategy3_produced (videos : list video) (text : string)
  (out : list scored) :
  strategy3 videos text = Ok out -> produced videos out.
Proof.
  unfold strategy3.
  destruct (braces (repair text)) as [doc|].
  - destruct (Json.loads doc) as [data|e]; simpl.
    + destruct (_format_results videos data) as [r|e] eqn:E; simpl.
      * intros H. inv H. right. exists data. exact E.
      * destruct (is_decode_error e); [apply strategy4_produced|].
        discriminate.
    + destruct (is_decode_error e); [apply strategy4_produced|].
      discriminate.
  - apply strategy4_produced.
Qed.

Lemma strategy2_produced (videos : list video) (text : string)
  (out : list scored) :
  strategy2 videos text = Ok out -> produced videos out.
Proof.
  unfold strategy2, try_except.
  destruct (search_fence text) as [js|].
  - destruct (bind (Json.loads js) _) as [r|e] eqn:E.
    + intros H. inv H. eapply decode_then_format, E.
    + destruct (is_decode_or_attribute_error e);
        [apply strategy3_produced | discriminate].
  - cbn [is_decode_or_attribute_error exn_eqb orb].
    apply strategy3_produced.
Qed.

Lemma process_response_produced (videos : list video) (text : string)
  (out : list scored) :
  _process_response videos text = Ok out -> produced videos out.
Proof.
  unfold _process_response, try_except.
  destruct (bind (Json.loads (strip text)) _) as [r|e] eqn:E.
  - intros H. inv H. eapply decode_then_format, E.
  - destruct (is_decode_error e);
      [apply strategy2_produced | discriminate].
Qed.

Lemma attempts_produced (env : environment) (videos : list video)
  (range : list nat) (trace : list event) (out : list scored) :
  fst (attempts env videos range trace) = Ok (Some out) ->
  produced videos out.
Proof.
  revert trace. induction range as [|k range IH]; intros trace; simpl.
  - discriminate.
  - destruct (bind (generate_content env k) _) as [r|e] eqn:E.
    + simpl. intros H. inv H.
      apply bind_ok in E. destruct E as (text & _ & E).
      eapply process_response_produced, E.
    + match goal with
      | |- context [if ?c then _ else _] => destruct c
      end; [apply IH|].
      simpl. intros H. apply bind_ok in H. destruct H as (fb & F & H).
      inv H. left. exact F.
Qed.

(** Every list [analyze_videos] returns is empty for an empty batch and
    otherwise the fallback list or a list of the scorer. *)
Lemma analyze_produced (env : environment) (self : analyzer)
  (videos : list video) (query : string) (out : list scored) :
  returned env self videos query = Ok (Some out) ->
  (videos = [] /\ out = []) \/ produced videos out.
Proof.
  unfold returned, analyze_videos.
  destruct (if configured self then _ else _) as [[self' trace]|e];
    [|discriminate].
  destruct videos as [|v vs].
  - simpl. intros H. inv H. left. split; reflexivity.
  - destruct (attempts env (v :: vs) (seq 0 MAX_RETRIES) trace)
      as [r trace'] eqn:E.
    simpl. intros H. subst r. right.
    eapply attempts_produced. rewrite E. reflexivity.
Qed.

(** The length bound read on [analyze_videos]: a returned list is longer
    than the input only when it was scored from a document whose accepted
    entries name an item twice. *)
Lemma analyze_length (env : environment) (self : analyzer)
  (videos : list video) (query : string) (out : list scored) :
  returned env self videos query = Ok (Some out) ->
  (List.length out <= List.length videos)%nat \/
  exists data,
    _format_results videos data = Ok out /\
    ~ NoDup (positions (List.length videos) (entries_of data)).
Proof.
  intros H. destruct (analyze_produced _ _ _ _ _ H) as [[-> ->] | [F | P]].
  - left. simpl. lia.
  - left. rewrite (create_fallback_length _ _ F). lia.
  - destruct P as [data P].
    destruct (NoDup_dec Nat.eq_dec
                (positions (List.length videos) (entries_of data)))
      as [D | D].
    + left. destruct (format_results_inv _ _ _ P) as [[_ F] | (_ & _ & ->)].
      * rewrite (create_fallback_length _ _ F). lia.
      * rewrite sorted_desc_length.
        eapply Nat.le_trans; [apply collect_length|].
        assert (I : incl (positions (List.length videos) (entries_of data))
                         (seq 0 (List.length videos))).
        { intros p Hp. apply in_seq. apply positions_lt in Hp. lia. }
        pose proof (NoDup_incl_length D I) as L.
        rewrite length_seq in L. exact L.
    + right. exists data. split; assumption.
Qed.

(** ** Fields that pass through *)

Local Open Scope string_scope.

(** The five keys a result adds to the keys of its video. *)
Definition computed_keys : list string :=
  ["gemini_score"; "gemini_analysis"; "composite_score";
   "like_ratio_contribution"; "views_contribution"].

Definition value_of_number (n : number) : value :=
  match n with
  | NInt z => VInt z
  | NFloat f => VFloat f
  end.

(** [video.get(k)] on the dictionary of a candidate. *)
Definition video_get (v : video) (k : string) : option value :=
  if String.eqb k "title" then Some (VStr (title v))
  else if String.eqb k "like_ratio" then Some (VFloat (like_ratio v))
  else if String.eqb k "views" then Some (VInt (views v))
  else if String.eqb k "views_formatted" then Some (VStr (views_formatted v))
  else lookup k (others v).

(** [result.get(k)] on [{**video, ...}]: a computed key hides the key
    of the video with the same name. *)
Definition scored_get (r : scored) (k : string) : option value :=
  if String.eqb k "gemini_score"
  then Some (value_of_number (gemini_score r))
  else if String.eqb k "gemini_analysis" then Some (gemini_analysis r)
  else if String.eqb k "composite_score"
  then Some (VFloat (composite_score r))
  else if String.eqb k "like_ratio_contribution"
  then Some (VFloat (like_ratio_contribution r))
  else if String.eqb k "views_contribution"
  then Some (VFloat (views_contribution r))
  else video_get (item r) k.

Local Close Scope string_scope.

Lemma scored_get_passthrough (r : scored) (k : string) :
  ~ In k computed_keys -> scored_get r k = video_get (item r) k.
Proof.
  intros N. unfold scored_get.
  repeat match goal with
  | |- context [String.eqb k ?c] =>
      destruct (String.eqb_spec k c) as [->|_];
      [exfalso; apply N; simpl; tauto|]
  end.
  reflexivity.
Qed.

Lemma produced_items (videos : list video) (out : list scored) :
  produced videos out -> Forall (fun r => In (item r) videos) out.
Proof.
  intros [F | (data & H)].
  - apply Forall_forall. intros r Hr.
    rewrite <- (create_fallback_items _ _ F). apply in_map, Hr.
  - destruct (format_results_inv _ _ _ H) as [[_ F] | (_ & _ & ->)].
    + apply Forall_forall. intros r Hr.
      rewrite <- (create_fallback_items _ _ F). apply in_map, Hr.
    + apply Forall_forall. intros r Hr. apply sorted_desc_In in Hr.
      destruct (collect_In _ _ _ _ Hr) as (e & _ & He).
      destruct (format_item_inv _ _ _ _ He)
        as (p & v & raw & rat & nv & _ & Hp & _ & _ & _ & ->).
      simpl. eapply nth_error_In, Hp.
Qed.


Definition ranking_text : string :=
  (qq "{~analysis~: [{~index~: 1, ~score~: 80, ~rationale~: ~second~},"
   ++ qq " {~index~: 0, ~score~: 80, ~rationale~: ~first~}]}")%string.


(** ** The heuristic repair *)

Lemma find_range (a : ascii) (t : string) : -1 <= find a t.
Proof.
  induction t as [|c r IH]; simpl; [lia|].
  destruct (Ascii.eqb c a); [lia|].
  destruct (find a r =? -1); lia.
Qed.

Lemma rfind_range (a : ascii) (t : string) : -1 <= rfind a t.
Proof.
  induction t as [|c r IH]; simpl; [lia|].
  destruct (rfind a r =? -1); simpl; [|lia].
  destruct (Ascii.eqb c a); lia.
Qed.

(** A slice that begins where [find] points begins with the character. *)
Lemma substring_at_find (a : ascii) (t : string) (n : nat) :
  find a t <> -1 ->
  exists rest, substring (Z.to_nat (find a t)) (S n) t = String a rest.
Proof.
  induction t as [|c r IH]; simpl find; [intros H; lia|].
  destruct (Ascii.eqb_spec c a) as [->|N].
  - intros _. simpl. eauto.
  - destruct (find a r =? -1) eqn:E; [intros H; lia|].
    apply Z.eqb_neq in E. intros _.
    pose proof (find_range a r) as R.
    replace (Z.to_nat (find a r + 1)) with (S (Z.to_nat (find a r))) by lia.
    simpl. apply IH, E.
Qed.

(** A slice that ends behind where [rfind] points ends with the
    character. *)
Lemma substring_to_rfind (a : ascii) (t : string) (i : nat) :
  rfind a t <> -1 -> (i <= Z.to_nat (rfind a t))%nat ->
  exists pre,
    substring i (S (Z.to_nat (rfind a t)) - i) t
    = (pre ++ String a EmptyString)%string.
Proof.
  revert i. induction t as [|c r IH]; intros i; simpl rfind;
    [intros H; lia|].
  pose proof (rfind_range a r) as R.
  destruct (rfind a r =? -1) eqn:E; simpl negb; cbv iota.
  - destruct (Ascii.eqb_spec c a) as [->|N]; [|intros H; lia].
    intros _ Hi. simpl in Hi. assert (i = 0%nat) by lia. subst i.
    exists EmptyString. simpl. destruct r; reflexivity.
  - apply Z.eqb_neq in E. intros _ Hi.
    replace (Z.to_nat (rfind a r + 1)) with (S (Z.to_nat (rfind a r)))
      in * by lia.
    destruct i as [|i].
    + destruct (IH 0%nat E ltac:(lia)) as [pre Hp].
      rewrite Nat.sub_0_r in Hp |- *.
      exists (String c pre). simpl. simpl in Hp. rewrite Hp. reflexivity.
    + destruct (IH i E ltac:(lia)) as [pre Hp].
      exists pre. simpl. simpl in Hp. exact Hp.
Qed.

Lemma rstrip_ends_nonspace (pre : string) (a : ascii) :
  is_space a = false ->
  rstrip (pre ++ String a EmptyString) = (pre ++ String a EmptyString)%string.
Proof.
  intros H. induction pre as [|c pre IH]; simpl.
  - rewrite H. reflexivity.
  - rewrite IH. destruct pre; reflexivity.
Qed.

Lemma substring_empty (n : nat) (s : string) : substring n 0 s = EmptyString.
Proof.
  revert n. induction s as [|c r IH]; intros [|n]; simpl; auto.
Qed.

(** The text between the first opening and the last closing brace has no
    white space at either end. *)
Lemma braces_strip (text doc : string) :
  braces text = Some doc -> strip doc = doc.
Proof.
  unfold braces, slice. intros H.
  destruct (find "{" text =? -1) eqn:E1; [discriminate|].
  apply Z.eqb_neq in E1.
  destruct (rfind "}" text + 1 =? -1) eqn:E2; [discriminate|].
  simpl in H. inv H.
  pose proof (find_range "{" text) as R1.
  pose proof (rfind_range "}" text) as R2.
  destruct (Z.to_nat (rfind "}" text + 1 - find "{" text)) as [|n] eqn:L.
  - rewrite substring_empty. reflexivity.
  - assert (N : rfind "}" text <> -1) by lia.
    destruct (substring_at_find "{" text n E1) as [rest Hs].
    destruct (substring_to_rfind "}" text (Z.to_nat (find "{" text)) N
                ltac:(lia)) as [pre Hp].
    replace (S (Z.to_nat (rfind "}" text)) - Z.to_nat (find "{" text))%nat
      with (S n) in Hp by lia.
    unfold strip. rewrite Hs at 1. simpl lstrip.
    rewrite <- Hs, Hp. apply rstrip_ends_nonspace. reflexivity.
Qed.

(** The scorer and the fallback raise neither a decode error nor an
    attribute error: no handler of the parser takes their exceptions. *)
Lemma fallback_list_raises (mx : Z) (videos : list video) (e : exn) :
  fallback_list mx videos = Raise e -> is_decode_or_attribute_error e = false.
Proof.
  induction videos as [|v vs IH]; simpl; [discriminate|].
  unfold normalized_views, int_truediv.
  destruct (Z.ltb 0 mx); simpl.
  - destruct (mx =? 0); simpl; [intros H; inv H; reflexivity|].
    destruct (quotient (views v) mx); simpl;
      try (intros H; inv H; reflexivity);
      destruct (fallback_list mx vs) as [l|e']; simpl;
      try discriminate; intros H; inv H; apply IH; reflexivity.
  - destruct (fallback_list mx vs) as [l|e']; simpl;
      try discriminate; intros H; inv H; apply IH; reflexivity.
Qed.

Lemma format_results_raises (videos : list video) (data : value) (e : exn) :
  _format_results videos data = Raise e ->
  is_decode_or_attribute_error e = false.
Proof.
  unfold _format_results.
  destruct (invalid_format data) as [[|]|e'] eqn:I; cbn [bind].
  - apply fallback_list_raises.
  - destruct (sorted_desc composite_score _); [|discriminate].
    apply fallback_list_raises.
  - intros H. inv H. unfold invalid_format in I.
    destruct data as [ | | | |s|l|d]; simpl in I; try (inv I; reflexivity).
    + destruct (infix "analysis" s); inv I. reflexivity.
    + destruct (existsb (is_str "analysis") l); inv I. reflexivity.
    + destruct (lookup "analysis" d); inv I.
Qed.

Lemma decode_error_only (e : exn) :
  is_decode_or_attribute_error e = false -> is_decode_error e = false.
Proof. destruct e; cbv; congruence. Qed.

(** The fenced-block strategy finds nothing it can decode. *)
Definition fence_fails (text : string) : Prop :=
  match search_fence text with
  | None => True
  | Some json_str => Json.loads json_str = Raise JSONDecodeError
  end.

Lemma strategy3_on_repaired (videos : list video) (text doc : string)
  (data : value) :
  braces (repair text) = Some doc ->
  Json.loads doc = Ok data ->
  strategy3 videos text = _format_results videos data.
Proof.
  intros B D. unfold strategy3. rewrite B, D. cbn [bind].
  destruct (_format_results videos data) as [r|e] eqn:F; [reflexivity|].
  cbn [bind].
  rewrite (decode_error_only e (format_results_raises _ _ _ F)).
  reflexivity.
Qed.


Definition single_quoted_text : string :=
  "{'analysis': [{'index': 0, 'score': 85, 'rationale': 'clear title'},]}".

Definition single_quoted_equivalent : string :=
  qq "{~analysis~: [{~index~: 0, ~score~: 85, ~rationale~: ~clear title~}]}".


Definition eighty_five : float := Eval vm_compute in of_decimal false 85 0.

Definition apostrophe_text : string :=
  qq "{~analysis~: [{~index~: 0, ~score~: 85, ~rationale~: ~don't miss it~},]}".

Definition apostrophe_equivalent : string :=
  qq "{~analysis~: [{~index~: 0, ~score~: 85, ~rationale~: ~don't miss it~}]}".

Definition comma_text : string :=
  qq "{~analysis~: [{~index~: 0, ~score~: 85, ~rationale~: ~{short,}~},]}".

Definition comma_equivalent : string :=
  qq "{~analysis~: [{~index~: 0, ~score~: 85, ~rationale~: ~{short,}~}]}".


(** ** What the cascade does handle *)

Lemma loads_raises_decode_error (s : string) (e : exn) :
  Json.loads s = Raise e -> e = JSONDecodeError.
Proof.
  unfold Json.loads.
  destruct (Json.scan_once _ _) as [[v rest]|]; [|intros H; inv H; reflexivity].
  destruct (Json.skip_ws rest); intros H; inv H. reflexivity.
Qed.

Lemma strategy4_raises (videos : list video) (text : string) (e : exn) :
  strategy4 videos text = Raise e -> is_decode_or_attribute_error e = false.
Proof.
  unfold strategy4.
  destruct (recover (findall_entries text)) as [[|a l]|e']; simpl;
    try apply fallback_list_raises.
  destruct (_format_results videos _) as [r|e'']; simpl;
    [discriminate | apply fallback_list_raises].
Qed.

Lemma strategy3_raises (videos : list video) (text : string) (e : exn) :
  strategy3 videos text = Raise e -> is_decode_or_attribute_error e = false.
Proof.
  unfold strategy3.
  destruct (braces (repair text)) as [doc|]; [|apply strategy4_raises].
  destruct (Json.loads doc) as [data|e'] eqn:E; cbn [bind].
  - destruct (_format_results videos data) as [r|e''] eqn:F; cbn [bind];
      [discriminate|].
    rewrite (decode_error_only e'' (format_results_raises _ _ _ F)).
    intros H. inv H. eapply format_results_raises, F.
  - rewrite (loads_raises_decode_error _ _ E).
    cbn [is_decode_error exn_eqb]. apply strategy4_raises.
Qed.

(** A decode error never leaves the parser: every text that no strategy
    can decode ends in the fallback list. *)
Lemma decode_errors_are_handled (videos : list video) (text : string)
  (e : exn) :
  _process_response videos text = Raise e ->
  is_decode_or_attribute_error e = false.
Proof.
  unfold _process_response, try_except.
  destruct (bind (Json.loads (strip text)) _) as [r|e1] eqn:E1;
    [discriminate|].
  destruct (is_decode_error e1) eqn:D1.
  - unfold strategy2, try_except.
    destruct (search_fence text) as [js|];
      [|cbn [is_decode_or_attribute_error exn_eqb orb];
        apply strategy3_raises].
    destruct (bind (Json.loads js) _) as [r|e2] eqn:E2; [discriminate|].
    destruct (is_decode_or_attribute_error e2) eqn:D2;
      [apply strategy3_raises|].
    intros H. inv H. exact D2.
  - intros H. inv H.
    destruct (Json.loads (strip text)) as [data|e0] eqn:E0; cbn [bind] in E1.
    + eapply format_results_raises, E1.
    + inv E1. rewrite (loads_raises_decode_error _ _ E0) in D1. discriminate.
Qed.

Lemma cascade_failure_falls_back (videos : list video) (text : string) :
  Json.loads (strip text) = Raise JSONDecodeError ->
  fence_fails text ->
  match braces (repair text) with
  | Some doc => Json.loads doc = Raise JSONDecodeError
  | None => True
  end ->
  recover (findall_entries (repair text)) = Ok [] ->
  _process_response videos text = _create_fallback videos.
Proof.
  intros S1 S2 S3 S4. unfold _process_response. rewrite S1.
  cbn [bind try_except is_decode_error exn_eqb].
  assert (T : strategy3 videos text = _create_fallback videos).
  { unfold strategy3, strategy4. rewrite S4.
    destruct (braces (repair text)) as [doc|]; [rewrite S3|]; reflexivity. }
  unfold strategy2, fence_fails in *.
  destruct (search_fence text) as [js|].
  - rewrite S2. exact T.
  - exact T.
Qed.

(** * Further properties of the analyzer *)

(** ** The score normaliser, once more *)

(** X1.  Normalising a score that is already normalised changes
    nothing: the value [_normalize_score] returns, read again as a raw
    score, normalises to itself. *)
Theorem normalize_score_idempotent (raw : value) :
  _normalize_score (value_of_number (_normalize_score raw))
  = _normalize_score raw.
Proof.
  destruct (normalize_score_cases raw) as [-> | [-> | (f & -> & H0 & H1)]].
  - vm_compute. reflexivity.
  - vm_compute. reflexivity.
  - rewrite normalize_score_unfold.
    change (py_float (value_of_number (NFloat f))) with (Ok f).
    cbv beta iota. rewrite H1, H0. reflexivity.
Qed.

(** ** Entries of the analysis list *)

(** The value [d.get(k, default)] of a dictionary. *)
Definition get_or (k : string) (default : value) (d : dict) : value :=
  match lookup k d with
  | Some v => v
  | None => default
  end.

(** The integer an index stands for lies in [[-n, n)]. *)
Definition index_in_bounds (n : nat) (index : value) : Prop :=
  exists i, as_int index = Some i /\ - Z.of_nat n <= i < Z.of_nat n.

(** [videos[i]] for an index in bounds. *)
Definition resolve (n : nat) (i : Z) : nat :=
  Z.to_nat (if i <? 0 then i + Z.of_nat n else i).

Lemma getitem_in_bounds {A : Type} (l : list A) (i : Z) :
  - Z.of_nat (List.length l) <= i < Z.of_nat (List.length l) ->
  exists a, nth_error l (resolve (List.length l) i) = Some a /\
            getitem l i = Ok a.
Proof.
  intros H. unfold getitem, resolve.
  set (j := if i <? 0 then i + Z.of_nat (List.length l) else i).
  assert (J : 0 <= j < Z.of_nat (List.length l)).
  { unfold j. destruct (i <? 0) eqn:E;
      [apply Z.ltb_lt in E | apply Z.ltb_ge in E]; lia. }
  rewrite (proj2 (Z.ltb_ge j 0)) by lia.
  destruct (nth_error l (Z.to_nat j)) as [a|] eqn:N; [eauto|].
  apply nth_error_None in N. lia.
Qed.

Lemma format_item_in_bounds (videos : list video) (d : dict) (index : value)
  (i : Z) :
  Forall (fun v => 0 <= views v) videos ->
  lookup "index" d = Some index ->
  as_int index = Some i ->
  - Z.of_nat (List.length videos) <= i < Z.of_nat (List.length videos) ->
  exists v popularity,
    nth_error videos (resolve (List.length videos) i) = Some v /\
    normalized_views (views v) (max_views videos) = Ok popularity /\
    format_item videos (max_views videos) (VDict d)
    = Ok (make_scored v (_normalize_score (get_or "score" VNone d))
            (get_or "rationale" default_rationale d) popularity).
Proof.
  intros W L A B.
  destruct (getitem_in_bounds videos i B) as (v & N & G).
  assert (V : In v videos) by (eapply nth_error_In, N).
  rewrite Forall_forall in W.
  destruct (normalized_views_total (views v) (max_views videos))
    as [nv Hnv]; [split; [apply W, V | apply max_views_ge, V]|].
  exists v, nv. split; [exact N|]. split; [exact Hnv|].
  unfold format_item, get. rewrite L. cbn [bind]. rewrite A.
  rewrite (proj2 (Z.leb_gt _ _) (proj2 B)). rewrite G. cbn [bind].
  rewrite Hnv. reflexivity.
Qed.

(** X2.  For a batch without negative view counts, a dictionary entry
    whose index is an integer [i] with [-len <= i < len] is always scored:
    against [videos[i]], with the normalised value of its [score] key
    ([None] when the key is missing, which normalises to 50.0) and with its
    [rationale] key, or the text [No rationale provided] when that key is
    missing. *)
Theorem entry_in_bounds_scored (videos : list video) (d : dict)
  (index : value) (i : Z) :
  Forall (fun v => 0 <= views v) videos ->
  lookup "index" d = Some index ->
  as_int index = Some i ->
  - Z.of_nat (List.length videos) <= i < Z.of_nat (List.length videos) ->
  exists v r,
    nth_error videos (resolve (List.length videos) i) = Some v /\
    format_item videos (max_views videos) (VDict d) = Ok r /\
    item r = v /\
    gemini_score r = _normalize_score (get_or "score" VNone d) /\
    gemini_analysis r = get_or "rationale" default_rationale d /\
    (lookup "score" d = None -> gemini_score r = NFloat fifty) /\
    (lookup "rationale" d = None ->
     gemini_analysis r = VStr "No rationale provided").
Proof.
  intros W L A B.
  destruct (format_item_in_bounds videos d index i W L A B)
    as (v & nv & N & _ & F).
  exists v. eexists. split; [exact N|]. split; [exact F|].
  repeat split.
  - intros S. cbn [gemini_score make_scored]. unfold get_or. rewrite S.
    reflexivity.
  - intros S. cbn [gemini_analysis make_scored]. unfold get_or. rewrite S.
    reflexivity.
Qed.

Definition bare_entry : dict := [("index"%string, VInt (-2))].

Lemma entry_in_bounds_scored_witness :
  exists v r,
    nth_error [video_a; video_b] (resolve 2 (-2)) = Some v /\
    format_item [video_a; video_b] (max_views [video_a; video_b])
      (VDict bare_entry) = Ok r /\
    item r = v /\
    gemini_score r = _normalize_score (get_or "score" VNone bare_entry) /\
    gemini_analysis r = get_or "rationale" default_rationale bare_entry /\
    (lookup "score" bare_entry = None -> gemini_score r = NFloat fifty) /\
    (lookup "rationale" bare_entry = None ->
     gemini_analysis r = VStr "No rationale provided").
Proof.
  apply (entry_in_bounds_scored [video_a; video_b] bare_entry (VInt (-2))
           (-2)).
  - repeat constructor; simpl; lia.
  - reflexivity.
  - reflexivity.
  - simpl. lia.
Defined.

Lemma accepted_index_in_bounds (n : nat) (d : dict) (p : nat) :
  accepted_index n (VDict d) = Some p ->
  exists index, lookup "index" d = Some index /\ index_in_bounds n index.
Proof.
  unfold accepted_index, get, index_in_bounds.
  destruct (lookup "index" d) as [index|] eqn:L; [|discriminate].
  destruct (as_int index) as [i|] eqn:A; [|discriminate].
  destruct (Z.of_nat n <=? i) eqn:E1; [discriminate|].
  apply Z.leb_gt in E1.
  destruct (i <? 0) eqn:E2;
    [apply Z.ltb_lt in E2 | apply Z.ltb_ge in E2].
  - destruct (i + Z.of_nat n <? 0) eqn:E3; [discriminate|].
    apply Z.ltb_ge in E3. intros _. exists index. split; [reflexivity|].
    exists i. split; [exact A | lia].
  - intros _. exists index. split; [reflexivity|].
    exists i. split; [exact A | lia].
Qed.

(** X3.  The index guard, exactly.  For a batch without negative view
    counts, an entry of the analysis list is scored if and only if it is a
    dictionary whose [index] key holds an integer (or a boolean, read as 0
    or 1) [i] with [-len <= i < len]; every other entry raises inside the
    loop and is skipped. *)
Theorem entry_scored_iff (videos : list video) (e : value) :
  Forall (fun v => 0 <= views v) videos ->
  (exists r, format_item videos (max_views videos) e = Ok r) <->
  (exists d index,
     e = VDict d /\ lookup "index" d = Some index /\
     index_in_bounds (List.length videos) index).
Proof.
  intros W. split.
  - intros [r H].
    destruct (format_item_inv _ _ _ _ H) as (p & _ & _ & _ & _ & A & _).
    destruct e as [ | | | | | |d]; try discriminate A.
    destruct (accepted_index_in_bounds _ _ _ A) as (index & L & B).
    exists d, index. auto.
  - intros (d & index & -> & L & (i & A & B)).
    destruct (format_item_in_bounds videos d index i W L A B)
      as (v & nv & _ & _ & F).
    eauto.
Qed.

Lemma entry_scored_iff_witness :
  (exists r,
     format_item [video_a; video_b] (max_views [video_a; video_b])
       (VDict bare_entry) = Ok r) <->
  (exists d index,
     VDict bare_entry = VDict d /\ lookup "index" d = Some index /\
     index_in_bounds (List.length [video_a; video_b]) index).
Proof.
  apply (entry_scored_iff [video_a; video_b] (VDict bare_entry)).
  repeat constructor; simpl; lia.
Defined.

Lemma collect_app (videos : list video) (mx : Z) (es1 es2 : list value) :
  collect videos mx (es1 ++ es2)
  = collect videos mx es1 ++ collect videos mx es2.
Proof.
  induction es1 as [|e es IH]; simpl; [reflexivity|].
  destruct (format_item videos mx e); rewrite IH; reflexivity.
Qed.

(** X4.  An entry that raises does not abort the batch: wherever it
    stands in the analysis list, the other entries are scored as if it
    were not there, and the scorer answers the same list. *)
Theorem failing_entry_skipped (videos : list video) (e : value)
  (es1 es2 : list value) (x : exn) :
  format_item videos (max_views videos) e = Raise x ->
  collect videos (max_views videos) (es1 ++ e :: es2)
  = collect videos (max_views videos) (es1 ++ es2) /\
  _format_results videos (document (es1 ++ e :: es2))
  = _format_results videos (document (es1 ++ es2)).
Proof.
  intros H.
  assert (C : collect videos (max_views videos) (es1 ++ e :: es2)
              = collect videos (max_views videos) (es1 ++ es2)).
  { rewrite !collect_app. simpl. rewrite H. reflexivity. }
  split; [exact C|].
  unfold _format_results, document. simpl. rewrite C. reflexivity.
Qed.

Lemma failing_entry_skipped_witness :
  collect [video_a] (max_views [video_a])
    ([entry (VInt 0) 80 "kept"] ++ VStr "noise" :: [entry (VInt 0) 70 "kept"])
  = collect [video_a] (max_views [video_a])
      ([entry (VInt 0) 80 "kept"] ++ [entry (VInt 0) 70 "kept"]) /\
  _format_results [video_a]
    (document ([entry (VInt 0) 80 "kept"] ++ VStr "noise"
               :: [entry (VInt 0) 70 "kept"]))
  = _format_results [video_a]
      (document ([entry (VInt 0) 80 "kept"] ++ [entry (VInt 0) 70 "kept"])).
Proof.
  apply (failing_entry_skipped [video_a] (VStr "noise") _ _ AttributeError).
  reflexivity.
Defined.

(** ** Documents of another shape *)

(** A decoded document on which the shape test of [_format_results]
    answers "invalid" without raising. *)
Definition lacks_analysis (data : value) : Prop :=
  match data with
  | VDict d =>
      match lookup "analysis" d with
      | Some (VList _) => False
      | _ => True
      end
  | VList l => existsb (is_str "analysis") l = false
  | VStr s => infix "analysis" s = false
  | _ => False
  end.

(** X5.  A decoded dictionary without the key [analysis], or with a
    value under it that is no list, gives the fallback list; so does a
    decoded list that does not hold the string [analysis] and a decoded
    string that does not contain it. *)
Theorem invalid_shape_fallback (videos : list video) (data : value) :
  lacks_analysis data ->
  _format_results videos data = _create_fallback videos.
Proof.
  unfold _format_results, invalid_format, py_in, subscript.
  destruct data as [ | | | |s|l|d]; simpl; try contradiction.
  - intros ->. reflexivity.
  - intros ->. reflexivity.
  - destruct (lookup "analysis" d) as [[ | | | | |l| ]|]; simpl;
      try contradiction; reflexivity.
Qed.

Lemma invalid_shape_fallback_witness :
  _format_results [video_a]
    (VDict [("results"%string, VList [entry (VInt 0) 80 "misnamed"])])
  = _create_fallback [video_a].
Proof.
  apply (invalid_shape_fallback [video_a]). exact I.
Defined.

Lemma format_results_total (videos : list video) (d : dict) :
  Forall (fun v => 0 <= views v) videos ->
  exists out, _format_results videos (VDict d) = Ok out.
Proof.
  intros W. destruct (create_fallback_total videos W) as [fb F].
  unfold _format_results, invalid_format, py_in, subscript. simpl.
  destruct (lookup "analysis" d) as [a|]; simpl; [|eauto].
  destruct (is_list a); simpl; [|eauto].
  destruct (sorted_desc composite_score _); eauto.
Qed.

Lemma produced_nonempty (videos : list video) (out : list scored) :
  produced videos out -> videos <> [] -> out <> [].
Proof.
  intros P N E. subst out. destruct P as [F | (data & H)].
  - apply create_fallback_length in F. destruct videos; [auto | discriminate].
  - destruct (format_results_inv _ _ _ H) as [[_ F] | (C & _ & S)].
    + apply create_fallback_length in F.
      destruct videos; [auto | discriminate].
    + symmetry in S. apply sorted_desc_nil in S. contradiction.
Qed.

(** X6.  The scorer never raises on a decoded dictionary when no view
    count is negative, and for a non-empty batch it answers a non-empty
    list: the ranked results, or else one fallback result per item. *)
Theorem dictionary_always_scored (videos : list video) (d : dict) :
  Forall (fun v => 0 <= views v) videos ->
  exists out,
    _format_results videos (VDict d) = Ok out /\
    (videos <> [] -> out <> []).
Proof.
  intros W. destruct (format_results_total videos d W) as [out H].
  exists out. split; [exact H|].
  apply produced_nonempty. right. exists (VDict d). exact H.
Qed.

Lemma dictionary_always_scored_witness :
  exists out,
    _format_results [video_a; video_b] (VDict []) = Ok out /\
    ([video_a; video_b] <> [] -> out <> []).
Proof.
  apply (dictionary_always_scored [video_a; video_b] []).
  repeat constructor; simpl; lia.
Defined.

(** ** Popularity and the sign of the scores *)

Lemma fold_max_attained (l : list Z) (a : Z) :
  fold_left Z.max l a = a \/ In (fold_left Z.max l a) l.
Proof.
  revert a. induction l as [|y l IH]; simpl; intros a; [auto|].
  destruct (IH (Z.max a y)) as [H | H]; [|auto].
  rewrite H. destruct (Z.max_spec a y) as [[_ ->] | [_ ->]]; auto.
Qed.

Lemma max_views_attained (videos : list video) :
  videos <> [] -> exists v, In v videos /\ views v = max_views videos.
Proof.
  destruct videos as [|w ws]; [contradiction|]. intros _. simpl.
  destruct (fold_max_attained (map views ws) (views w)) as [H | H].
  - exists w. split; [left; reflexivity | symmetry; exact H].
  - apply in_map_iff in H. destruct H as (v & Hv & I).
    exists v. split; [right; exact I | exact Hv].
Qed.

Lemma div_core_same (a : Z) :
  0 < a ->
  SFdiv_core_binary prec emax a 0 a 0 = (2 ^ 53, -53, loc_Exact).
Proof.
  intros Ha. unfold SFdiv_core_binary.
  replace (Zdigits2 a + 0 - (Zdigits2 a + 0)) with 0 by lia.
  change (Z.min (fexp prec emax 0) (0 - 0)) with (-53).
  change (0 - 0 - -53) with 53.
  rewrite Z.shiftl_mul_pow2 by lia.
  destruct (Z.div_eucl (a * 2 ^ 53) a) as [q r] eqn:D.
  assert (Q : q = 2 ^ 53).
  { replace q with ((a * 2 ^ 53) / a) by (unfold Z.div; rewrite D; reflexivity).
    rewrite Z.mul_comm. apply Z.div_mul. lia. }
  assert (R : r = 0).
  { replace r with ((a * 2 ^ 53) mod a)
      by (unfold Z.modulo; rewrite D; reflexivity).
    rewrite Z.mul_comm. apply Z.mod_mul. lia. }
  subst q r. unfold new_location, new_location_even, new_location_odd.
  destruct (Z.even a); reflexivity.
Qed.

Lemma quotient_same (a : Z) : 0 < a -> quotient a a = one.
Proof.
  intros Ha. unfold quotient.
  rewrite (proj2 (Z.eqb_neq a 0)) by lia.
  rewrite (Z.abs_eq a) by lia. rewrite (div_core_same a Ha).
  rewrite (proj2 (Z.ltb_ge a 0)) by lia. vm_compute. reflexivity.
Qed.

Lemma normalized_views_full (mx : Z) :
  0 < mx -> normalized_views mx mx = Ok (NFloat hundred).
Proof.
  intros H. unfold normalized_views, int_truediv.
  rewrite (proj2 (Z.ltb_lt 0 mx) H), (proj2 (Z.eqb_neq mx 0)) by lia.
  rewrite (quotient_same mx H). vm_compute. reflexivity.
Qed.

Lemma normalized_views_none (mx : Z) :
  0 < mx -> normalized_views 0 mx = Ok (NFloat zero).
Proof.
  intros H. unfold normalized_views, int_truediv, quotient.
  rewrite (proj2 (Z.ltb_lt 0 mx) H), (proj2 (Z.eqb_neq mx 0)) by lia.
  rewrite (proj2 (Z.ltb_ge mx 0)) by lia. vm_compute. reflexivity.
Qed.

Definition twenty : float := Eval vm_compute in of_decimal false 20 0.

(** X7.  In every non-empty batch whose largest view count is positive,
    an item with the largest view count has the popularity 100.0 and the
    views contribution 20.0, whatever the other fields are; an item
    without views has the popularity 0.0 and the views contribution 0.0. *)
Theorem popularity_endpoints (videos : list video) :
  videos <> [] -> 0 < max_views videos ->
  (exists v, In v videos /\ views v = max_views videos) /\
  (forall v score analysis popularity,
     In v videos ->
     normalized_views (views v) (max_views videos) = Ok popularity ->
     (views v = max_views videos ->
      popularity = NFloat hundred /\
      views_contribution (make_scored v score analysis popularity) = twenty)
     /\
     (views v = 0 ->
      popularity = NFloat zero /\
      views_contribution (make_scored v score analysis popularity) = zero)).
Proof.
  intros N P. split; [apply max_views_attained, N|].
  intros v score analysis nv _ H. split.
  - intros E. rewrite E, (normalized_views_full _ P) in H. inv H.
    split; reflexivity.
  - intros E. rewrite E, (normalized_views_none _ P) in H. inv H.
    split; reflexivity.
Qed.

Lemma popularity_endpoints_witness :
  (exists v, In v [video_a; video_b]
             /\ views v = max_views [video_a; video_b]) /\
  (forall v score analysis popularity,
     In v [video_a; video_b] ->
     normalized_views (views v) (max_views [video_a; video_b])
     = Ok popularity ->
     (views v = max_views [video_a; video_b] ->
      popularity = NFloat hundred /\
      views_contribution (make_scored v score analysis popularity) = twenty)
     /\
     (views v = 0 ->
      popularity = NFloat zero /\
      views_contribution (make_scored v score analysis popularity) = zero)).
Proof.
  apply (popularity_endpoints [video_a; video_b]).
  - discriminate.
  - reflexivity.
Defined.

Lemma nonneg_leb_zero (x : float) : nonneg x = true -> leb zero x = true.
Proof.
  destruct x as [s|[|]| |[|] m e]; simpl; try discriminate; reflexivity.
Qed.

Lemma make_scored_nonneg (v : video) (score : number) (analysis : value)
  (popularity : number) :
  well_formed v ->
  nonneg (to_float score) = true ->
  nonneg (to_float popularity) = true ->
  let r := make_scored v score analysis popularity in
  leb zero (composite_score r) = true /\
  leb zero (like_ratio_contribution r) = true /\
  leb zero (views_contribution r) = true.
Proof.
  intros [W _] S P r. unfold r, make_scored.
  cbn [composite_score like_ratio_contribution views_contribution].
  apply leb_zero_nonneg in W.
  repeat split; apply nonneg_leb_zero, round2_nonneg.
  - apply weighted_nonneg; assumption.
  - apply mul_nonneg_l; [reflexivity | assumption].
  - apply mul_nonneg_l; [reflexivity | assumption].
Qed.

Definition scores_nonneg (r : scored) : Prop :=
  leb zero (composite_score r) = true /\
  leb zero (like_ratio_contribution r) = true /\
  leb zero (views_contribution r) = true.

Lemma fallback_list_nonneg (mx : Z) (videos : list video)
  (fb : list scored) :
  Forall well_formed videos -> fallback_list mx videos = Ok fb ->
  Forall scores_nonneg fb.
Proof.
  intros W F. apply fallback_list_shape in F.
  induction F as [|v r vs rs (nv & Hnv & ->) _ IH]; constructor.
  - apply Forall_inv in W.
    apply make_scored_nonneg; [exact W | reflexivity|].
    eapply normalized_views_nonneg; [apply W | exact Hnv].
  - apply IH. eapply Forall_inv_tail, W.
Qed.

Lemma produced_nonneg (videos : list video) (out : list scored) :
  Forall well_formed videos -> produced videos out ->
  Forall scores_nonneg out.
Proof.
  intros W P.
  destruct P as [F | (data & H)]; [eapply fallback_list_nonneg; eassumption|].
  destruct (format_results_inv _ _ _ H) as [[_ F] | (_ & _ & ->)];
    [eapply fallback_list_nonneg; eassumption|].
  rewrite Forall_forall in W.
  apply Forall_forall. intros r Hr. apply sorted_desc_In in Hr.
  destruct (collect_In _ _ _ _ Hr) as (e & _ & He).
  destruct (format_item_inv _ _ _ _ He)
    as (p & v & raw & rat & nv & _ & Hp & _ & _ & Hnv & ->).
  apply nth_error_In in Hp.
  apply make_scored_nonneg; [apply W, Hp | apply normalize_score_nonneg|].
  eapply normalized_views_nonneg; [apply (W v Hp) | exact Hnv].
Qed.

(** X8.  For well-formed candidates (like ratio and view count not
    negative) every result the analyzer returns, ranked or fallback, has a
    composite score, a like-ratio contribution and a views contribution
    that are numbers not below zero; none of them is ever a NaN. *)
Theorem scores_never_negative (env : environment) (self : analyzer)
  (videos : list video) (query : string) (out : list scored) :
  Forall well_formed videos ->
  returned env self videos query = Ok (Some out) ->
  Forall scores_nonneg out.
Proof.
  intros W H. destruct (analyze_produced _ _ _ _ _ H) as [[_ ->] | P].
  - constructor.
  - apply (produced_nonneg videos); assumption.
Qed.

Lemma scores_never_negative_witness :
  Forall scores_nonneg
         (sorted_desc composite_score
            (collect [video_a; video_b] (max_views [video_a; video_b])
               (entries_of ranking_document))).
Proof.
  apply (scores_never_negative (answering ranking_text) fresh
           [video_a; video_b] "python").
  - repeat constructor; simpl; lia.
  - vm_compute. reflexivity.
Defined.

(** ** What the scorer and the parser raise *)

(** The decoded documents on which the shape test of [_format_results]
    raises: a scalar has no membership test, and a string or a list that
    holds [analysis] passes the membership test and is then subscripted
    with a string. *)
Definition shape_test_raises (data : value) : bool :=
  match data with
  | VNone | VBool _ | VInt _ | VFloat _ => true
  | VStr s => infix "analysis" s
  | VList l => existsb (is_str "analysis") l
  | VDict _ => false
  end.

Lemma invalid_format_cases (data : value) :
  (shape_test_raises data = true /\ invalid_format data = Raise TypeError) \/
  (shape_test_raises data = false /\ exists b, invalid_format data = Ok b).
Proof.
  unfold invalid_format, py_in, subscript.
  destruct data as [ | | | |s|l|d]; simpl; auto.
  - destruct (infix "analysis" s); simpl; eauto.
  - destruct (existsb (is_str "analysis") l); simpl; eauto.
  - right. split; [reflexivity|].
    destruct (lookup "analysis" d); simpl; eauto.
Qed.

Lemma format_results_cases (videos : list video) (data : value) :
  Forall (fun v => 0 <= views v) videos ->
  (shape_test_raises data = true /\
   _format_results videos data = Raise TypeError) \/
  (shape_test_raises data = false /\
   exists out, _format_results videos data = Ok out).
Proof.
  intros W. destruct (create_fallback_total videos W) as [fb F].
  unfold _format_results.
  destruct (invalid_format_cases data) as [[S ->] | (S & b & ->)];
    [left; split; [exact S | reflexivity]|].
  right. split; [exact S|]. cbn [bind].
  destruct b; [eauto|].
  destruct (sorted_desc composite_score _); eauto.
Qed.

(** X9.  When no view count is negative, the scorer raises exactly on
    the decoded documents that are a scalar (null, a truth value, a
    number), a string that contains [analysis] or a list that holds the
    string [analysis]; what it raises is [TypeError]; on every other
    document it answers a list. *)
Theorem scorer_raises_on_shape (videos : list video) (data : value) :
  Forall (fun v => 0 <= views v) videos ->
  (shape_test_raises data = true <->
   _format_results videos data = Raise TypeError) /\
  (shape_test_raises data = false <->
   exists out, _format_results videos data = Ok out).
Proof.
  intros W.
  destruct (format_results_cases videos data W) as [[S R] | (S & out & R)];
    rewrite S, R.
  - split; split; auto; try discriminate.
    intros (out & H). discriminate.
  - split; split; eauto; discriminate.
Qed.

Lemma scorer_raises_on_shape_witness :
  (shape_test_raises (VStr "my analysis of the titles") = true <->
   _format_results [video_a] (VStr "my analysis of the titles")
   = Raise TypeError) /\
  (shape_test_raises (VStr "my analysis of the titles") = false <->
   exists out,
     _format_results [video_a] (VStr "my analysis of the titles") = Ok out).
Proof.
  apply (scorer_raises_on_shape [video_a] (VStr "my analysis of the titles")).
  repeat constructor; simpl; lia.
Defined.

Lemma strategy4_total (videos : list video) (text : string) :
  Forall (fun v => 0 <= views v) videos ->
  exists out, strategy4 videos text = Ok out.
Proof.
  intros W. destruct (create_fallback_total videos W) as [fb F].
  unfold strategy4.
  destruct (recover (findall_entries text)) as [[|a l]|e]; simpl; eauto.
  destruct (_format_results videos _); simpl; eauto.
Qed.

Lemma decoded_total (videos : list video) (r : result value)
  (next : result (list scored)) :
  Forall (fun v => 0 <= views v) videos ->
  (forall e, r = Raise e -> e = JSONDecodeError) ->
  (exists out, next = Ok out) \/ next = Raise TypeError ->
  let body := bind r (fun data => _format_results videos data) in
  ((exists out, try_except body is_decode_error next = Ok out) \/
   try_except body is_decode_error next = Raise TypeError) /\
  ((exists out, try_except body is_decode_or_attribute_error next = Ok out) \/
   try_except body is_decode_or_attribute_error next = Raise TypeError).
Proof.
  intros W D N body. unfold body. destruct r as [data|e]; cbn [bind].
  - destruct (format_results_cases videos data W)
      as [[_ ->] | (_ & out & ->)]; simpl; split; eauto.
  - rewrite (D e eq_refl). simpl. split; exact N.
Qed.

Lemma strategy3_total (videos : list video) (text : string) :
  Forall (fun v => 0 <= views v) videos ->
  (exists out, strategy3 videos text = Ok out) \/
  strategy3 videos text = Raise TypeError.
Proof.
  intros W. destruct (strategy4_total videos (repair text) W) as [o4 S4].
  unfold strategy3. rewrite S4.
  destruct (braces (repair text)) as [doc|]; [|eauto].
  destruct (Json.loads doc) as [data|e] eqn:L; cbn [bind].
  - destruct (format_results_cases videos data W)
      as [[_ ->] | (_ & out & ->)]; simpl; eauto.
  - rewrite (loads_raises_decode_error _ _ L). simpl. eauto.
Qed.

Lemma strategy2_total (videos : list video) (text : string) :
  Forall (fun v => 0 <= views v) videos ->
  (exists out, strategy2 videos text = Ok out) \/
  strategy2 videos text = Raise TypeError.
Proof.
  intros W. unfold strategy2.
  destruct (search_fence text) as [js|].
  - apply (decoded_total videos (Json.loads js) _ W).
    + intros e. apply loads_raises_decode_error.
    + apply strategy3_total, W.
  - simpl. apply strategy3_total, W.
Qed.



(** ** The fenced block *)

Lemma is_space_not_backquote (c : ascii) :
  is_space c = true -> Ascii.eqb c backquote = false.
Proof.
  intros H. destruct (Ascii.eqb c backquote) eqn:E; [|reflexivity].
  apply Ascii.eqb_eq in E. subst c. discriminate H.
Qed.

Lemma loads_backquote (r : string) :
  Json.loads (String backquote r) = Raise JSONDecodeError.
Proof. reflexivity. Qed.

Lemma rstrip_head (c : ascii) (r : string) :
  is_space c = false -> exists r', rstrip (String c r) = String c r'.
Proof.
  intros H. simpl. destruct (rstrip r); [rewrite H|]; eauto.
Qed.

Lemma strip_blank_prefix (pre s : string) :
  lstrip pre = EmptyString -> strip (pre ++ s) = strip s.
Proof.
  unfold strip. induction pre as [|c pre IH]; simpl; [reflexivity|].
  destruct (is_space c); [exact IH | discriminate].
Qed.

Lemma before_fence_close (doc rest : string) :
  contains_char backquote doc = false ->
  before fence_close (doc ++ fence_close ++ rest) = Some doc.
Proof.
  induction doc as [|c doc IH]; intros H.
  - reflexivity.
  - simpl in H. apply orb_false_iff in H. destruct H as [_ H].
    change ((String c doc ++ fence_close ++ rest)%string)
      with (String c (doc ++ fence_close ++ rest)%string).
    cbn [before]. rewrite (IH H).
    replace (starts_with fence_close (String c (doc ++ fence_close ++ rest)))
      with false; [reflexivity|].
    symmetry. unfold fence_close. cbn [starts_with].
    destruct (Ascii.eqb newline c); [|reflexivity].
    destruct doc as [|d doc]; [reflexivity|].
    simpl in H. apply orb_false_iff in H. destruct H as [H _].
    cbn [append starts_with]. rewrite Ascii.eqb_sym, H. reflexivity.
Qed.

Lemma search_fence_blank_prefix (pre s : string) :
  lstrip pre = EmptyString -> search_fence (pre ++ s) = search_fence s.
Proof.
  induction pre as [|c pre IH]; [reflexivity|].
  simpl lstrip. destruct (is_space c) eqn:E; [|discriminate].
  intros H.
  change ((String c pre ++ s)%string) with (String c (pre ++ s)%string).
  cbn [search_fence]. rewrite (IH H).
  replace (starts_with fence_open (String c (pre ++ s))) with false;
    [reflexivity|].
  unfold fence_open. cbn [starts_with].
  rewrite Ascii.eqb_sym, (is_space_not_backquote c E). reflexivity.
Qed.

Lemma search_fence_unfold (s : string) :
  search_fence s
  = match (if starts_with fence_open s
           then before fence_close (drop 8 s) else None) with
    | Some g => Some g
    | None =>
        match s with
        | EmptyString => None
        | String _ r => search_fence r
        end
    end.
Proof. destruct s; reflexivity. Qed.

Lemma search_fence_head (doc rest : string) :
  contains_char backquote doc = false ->
  search_fence (fence_open ++ doc ++ fence_close ++ rest) = Some doc.
Proof.
  intros H.
  change ((fence_open ++ doc ++ fence_close ++ rest)%string)
    with (String backquote (String backquote (String backquote
           (String "j" (String "s" (String "o" (String "n" (String newline
              (doc ++ fence_close ++ rest)%string)))))))).
  rewrite search_fence_unfold.
  match goal with
  | |- context [starts_with fence_open ?t] =>
      change (starts_with fence_open t) with true
  end.
  cbn [drop]. rewrite (before_fence_close doc rest H). reflexivity.
Qed.

(** X11.  A response that opens, after white space only, with a fence
    line of three backquotes and [json], is scored from the text between
    that line and the next line of three backquotes when this text holds no
    backquote and decodes: what follows the closing fence is ignored, and
    the parser answers what [_format_results] answers on the decoded
    document. *)
Theorem fenced_block_is_decoded (videos : list video)
  (blank doc rest : string) (data : value) :
  lstrip blank = EmptyString ->
  contains_char backquote doc = false ->
  Json.loads doc = Ok data ->
  _process_response videos (blank ++ fence_open ++ doc ++ fence_close ++ rest)
  = _format_results videos data.
Proof.
  intros B C L. unfold _process_response.
  rewrite (strip_blank_prefix blank _ B).
  assert (S1 : Json.loads (strip (fence_open ++ doc ++ fence_close ++ rest))
               = Raise JSONDecodeError).
  { unfold strip.
    change (lstrip (fence_open ++ doc ++ fence_close ++ rest))
      with ((fence_open ++ doc ++ fence_close ++ rest)%string).
    destruct (rstrip_head backquote
                (String backquote (String backquote
                   (String "j" (String "s" (String "o" (String "n"
                      (String newline (doc ++ fence_close ++ rest)%string)))))))
                eq_refl) as [r' R].
    change (rstrip (fence_open ++ doc ++ fence_close ++ rest)
            = String backquote r') in R.
    rewrite R. apply loads_backquote. }
  rewrite S1. cbn [bind try_except is_decode_error exn_eqb].
  unfold strategy2.
  rewrite (search_fence_blank_prefix blank _ B), (search_fence_head doc rest C).
  rewrite L. cbn [bind]. unfold try_except.
  destruct (_format_results videos data) as [out|e] eqn:F; [reflexivity|].
  rewrite (format_results_raises _ _ _ F). reflexivity.
Qed.

Definition fenced_document : string :=
  (qq "{~analysis~: [{~index~: 0, ~score~: 85,"
   ++ qq " ~rationale~: ~clear title~}]}")%string.

Definition fenced_text : string :=
  (String newline fence_open ++ fenced_document
   ++ fence_close ++ " I hope this helps.")%string.

Lemma fenced_block_is_decoded_witness :
  _process_response [video_a] fenced_text
  = _format_results [video_a] (document [entry (VInt 0) 85 "clear title"]).
Proof.
  apply (fenced_block_is_decoded [video_a] (String newline EmptyString)
           fenced_document " I hope this helps.").
  - reflexivity.
  - reflexivity.
  - vm_compute. reflexivity.
Defined.

(** ** A response without an object *)

Definition no_brace (s : string) : Prop := contains_char "{" s = false.

Lemma no_brace_tail (c : ascii) (s : string) :
  no_brace (String c s) -> Ascii.eqb c "{" = false /\ no_brace s.
Proof. unfold no_brace. simpl. apply orb_false_iff. Qed.

Lemma no_brace_cons (c : ascii) (s : string) :
  Ascii.eqb c "{" = false -> no_brace s -> no_brace (String c s).
Proof. unfold no_brace. simpl. intros -> ->. reflexivity. Qed.

Lemma no_brace_lstrip (s : string) : no_brace s -> no_brace (lstrip s).
Proof.
  induction s as [|c s IH]; simpl; [auto|]. intros H.
  destruct (is_space c); [apply IH, (no_brace_tail c s H) | exact H].
Qed.

Lemma no_brace_rstrip (s : string) : no_brace s -> no_brace (rstrip s).
Proof.
  induction s as [|c s IH]; simpl; [auto|]. intros H.
  destruct (no_brace_tail c s H) as [C T]. specialize (IH T).
  destruct (rstrip s) as [|d r].
  - destruct (is_space c); [reflexivity | apply no_brace_cons; auto].
  - apply no_brace_cons; auto.
Qed.

Lemma no_brace_skip_ws (s : string) : no_brace s -> no_brace (Json.skip_ws s).
Proof.
  induction s as [|c s IH]; simpl; [auto|]. intros H.
  destruct (Json.is_ws c); [apply IH, (no_brace_tail c s H) | exact H].
Qed.

Lemma no_brace_drop (n : nat) (s : string) : no_brace s -> no_brace (drop n s).
Proof.
  revert s. induction n as [|n IH]; intros [|c s] H; simpl; auto.
  apply IH, (no_brace_tail c s H).
Qed.

Lemma no_brace_before (stop s g : string) :
  no_brace s -> before stop s = Some g -> no_brace g.
Proof.
  revert g. induction s as [|c s IH]; intros g H; simpl.
  - destruct (starts_with stop ""); intros E; inv E. reflexivity.
  - destruct (starts_with stop (String c s)); [intros E; inv E; reflexivity|].
    destruct (before stop s) as [g'|]; simpl; intros E; inv E.
    destruct (no_brace_tail c s H) as [C T].
    apply no_brace_cons; [exact C | apply IH; auto].
Qed.

Lemma no_brace_search_fence (s g : string) :
  no_brace s -> search_fence s = Some g -> no_brace g.
Proof.
  induction s as [|c s IH]; intros H; rewrite search_fence_unfold.
  - destruct (starts_with fence_open ""); [|discriminate].
    destruct (before fence_close (drop 8 "")) eqn:B; [|discriminate].
    intros E. inv E. eapply no_brace_before; [|exact B].
    apply no_brace_drop, H.
  - destruct (starts_with fence_open (String c s)).
    + destruct (before fence_close (drop 8 (String c s))) eqn:B.
      * intros E. inv E. eapply no_brace_before; [|exact B].
        apply no_brace_drop, H.
      * apply IH, (no_brace_tail c s H).
    + apply IH, (no_brace_tail c s H).
Qed.

Lemma no_brace_replace (s : string) :
  no_brace s -> no_brace (replace squote dquote s).
Proof.
  unfold replace. induction s as [|c s IH]; simpl; [auto|]. intros H.
  destruct (no_brace_tail c s H) as [C T].
  apply no_brace_cons; [|apply IH, T].
  destruct (Ascii.eqb c squote); [reflexivity | exact C].
Qed.

Lemma no_brace_sub_comments (dropping : bool) (s : string) :
  no_brace s -> no_brace (sub_comments_from dropping s).
Proof.
  revert dropping. induction s as [|c s IH]; intros d H; simpl; [auto|].
  destruct (no_brace_tail c s H) as [C T].
  destruct d.
  - destruct (Ascii.eqb c newline); apply IH, T.
  - destruct (_ && _); [apply IH, T|].
    apply no_brace_cons; [exact C | apply IH, T].
Qed.

Lemma no_brace_sub_trailing (close : ascii) (dropping : bool) (s : string) :
  no_brace s -> no_brace (sub_trailing_from close dropping s).
Proof.
  revert dropping. induction s as [|c s IH]; intros d H; simpl; [auto|].
  destruct (no_brace_tail c s H) as [C T].
  destruct d.
  - destruct (Ascii.eqb c close); [|apply IH, T].
    apply no_brace_cons; [exact C | apply IH, T].
  - destruct (_ && _); [apply IH, T|].
    apply no_brace_cons; [exact C | apply IH, T].
Qed.

Lemma no_brace_repair (s : string) : no_brace s -> no_brace (repair s).
Proof.
  intros H. unfold repair, sub_trailing, sub_comments.
  apply no_brace_sub_trailing, no_brace_sub_trailing.
  apply no_brace_sub_comments, no_brace_replace, H.
Qed.

Lemma no_brace_find (s : string) : no_brace s -> find "{" s = -1.
Proof.
  induction s as [|c s IH]; simpl; [auto|]. intros H.
  destruct (no_brace_tail c s H) as [C T]. rewrite C, (IH T). reflexivity.
Qed.

Lemma no_brace_findall (s : string) : no_brace s -> findall_from false s = [].
Proof.
  induction s as [|c s IH]; simpl; [auto|]. intros H.
  destruct (no_brace_tail c s H) as [C T]. rewrite C. apply IH, T.
Qed.

Definition is_dict (v : value) : bool :=
  match v with
  | VDict _ => true
  | _ => false
  end.

Lemma scan_number_kind (s rest : string) (v : value) :
  Json.scan_number s = Some (v, rest) -> is_dict v = false.
Proof.
  unfold Json.scan_number.
  destruct (match s with
            | EmptyString => (false, s)
            | String c r => if Ascii.eqb c "-" then (true, r) else (false, s)
            end) as [neg s1].
  destruct s1 as [|c r]; [discriminate|].
  destruct (is_digit c); [|discriminate].
  destruct (if Ascii.eqb c "0" then _ else _) as [int_part after_int].
  destruct (Json.scan_fraction after_int) as [[[fm flen] frest]|];
    cbv zeta.
  - destruct (Json.scan_exponent frest) as [[x xrest]|];
      intros H; inv H; reflexivity.
  - destruct (Json.scan_exponent after_int) as [[x xrest]|];
      intros H; inv H; reflexivity.
Qed.

Lemma scan_constant_kind (s rest : string) (v : value) :
  Json.scan_constant s = Some (v, rest) -> is_dict v = false.
Proof.
  unfold Json.scan_constant.
  destruct (starts_with "null" s); [intros H; inv H; reflexivity|].
  destruct (starts_with "true" s); [intros H; inv H; reflexivity|].
  destruct (starts_with "false" s); [intros H; inv H; reflexivity|].
  destruct (Json.scan_number s) as [[v' r']|] eqn:N.
  - intros H. inv H. eapply scan_number_kind, N.
  - destruct (starts_with "NaN" s); [intros H; inv H; reflexivity|].
    destruct (starts_with "Infinity" s); [intros H; inv H; reflexivity|].
    destruct (starts_with "-Infinity" s); intros H; inv H; reflexivity.
Qed.

Lemma scan_once_no_brace (fuel : nat) (s rest : string) (v : value) :
  no_brace s -> Json.scan_once fuel s = Some (v, rest) -> is_dict v = false.
Proof.
  intros H. destruct fuel as [|n]; [discriminate|].
  destruct s as [|c r]; [discriminate|].
  destruct (no_brace_tail c r H) as [C _].
  cbn [Json.scan_once]. rewrite C.
  destruct (Ascii.eqb c dquote).
  - destruct (Json.scanstring _ r) as [[body rest']|]; intros E; inv E.
    reflexivity.
  - destruct (Ascii.eqb c "[").
    + destruct (starts_with "]" (Json.skip_ws r));
        [intros E; inv E; reflexivity|].
      destruct (Json.scan_elements n _) as [[vs rest']|]; intros E; inv E.
      reflexivity.
    + apply scan_constant_kind.
Qed.

Lemma loads_no_brace (s : string) (data : value) :
  no_brace s -> Json.loads s = Ok data -> is_dict data = false.
Proof.
  intros H. unfold Json.loads.
  destruct (Json.scan_once _ _) as [[v rest]|] eqn:E; [|discriminate].
  destruct (Json.skip_ws rest); intros L; inv L.
  eapply scan_once_no_brace; [|exact E]. apply no_brace_skip_ws, H.
Qed.

(** The parser did not rank: it answers what the fallback answers, or
    it raises [TypeError]. *)
Definition unranked (videos : list video) (r : result (list scored)) : Prop :=
  r = _create_fallback videos \/ r = Raise TypeError.

Lemma non_dict_unranked (videos : list video) (data : value) :
  is_dict data = false -> unranked videos (_format_results videos data).
Proof.
  unfold unranked, _format_results, invalid_format, py_in, subscript.
  destruct data as [ | | | |s|l|d]; simpl; auto; [| |discriminate]; intros _.
  - destruct (infix "analysis" s); simpl; auto.
  - destruct (existsb (is_str "analysis") l); simpl; auto.
Qed.

Lemma unranked_try (videos : list video) (r next : result (list scored))
  (handles : exn -> bool) :
  (forall e, handles e = true -> is_decode_or_attribute_error e = true) ->
  unranked videos r -> try_except r handles next = r.
Proof.
  intros D [-> | ->]; unfold try_except.
  - destruct (_create_fallback videos) as [fb|e] eqn:F; [reflexivity|].
    destruct (handles e) eqn:E; [|reflexivity].
    apply D in E. rewrite (fallback_list_raises _ _ _ F) in E. discriminate.
  - destruct (handles TypeError) eqn:E; [|reflexivity].
    apply D in E. discriminate.
Qed.

Lemma decoded_unranked (videos : list video) (s : string)
  (next : result (list scored)) (handles : exn -> bool) :
  (forall e, handles e = true -> is_decode_or_attribute_error e = true) ->
  handles JSONDecodeError = true ->
  no_brace s -> unranked videos next ->
  unranked videos
    (try_except (bind (Json.loads s) (fun data => _format_results videos data))
       handles next).
Proof.
  intros D J H N. destruct (Json.loads s) as [data|e] eqn:L; cbn [bind].
  - pose proof (non_dict_unranked videos data (loads_no_brace s data H L)) as U.
    rewrite (unranked_try videos _ next handles D U). exact U.
  - rewrite (loads_raises_decode_error _ _ L). unfold try_except.
    rewrite J. exact N.
Qed.

Lemma strategy3_no_brace (videos : list video) (text : string) :
  no_brace text -> strategy3 videos text = _create_fallback videos.
Proof.
  intros H. apply no_brace_repair in H.
  unfold strategy3, strategy4, braces, findall_entries.
  rewrite (no_brace_find _ H), (no_brace_findall _ H). reflexivity.
Qed.



(** ** The retry loop, attempt by attempt *)

(** What the [try] block of attempt [k] gives: the list of the parser,
    or the exception of the remote call or of the parser. *)
Definition attempt_result (env : environment) (videos : list video)
  (k : nat) : result (list scored) :=
  text <- generate_content env k ;; _process_response videos text.

(** The calls [analyze_videos] makes, and the analyzer it leaves. *)
Definition trace_of (env : environment) (self : analyzer)
  (videos : list video) (query : string) : list event :=
  snd (analyze_videos env self videos query).

Definition state_of (env : environment) (self : analyzer)
  (videos : list video) (query : string) : analyzer :=
  snd (fst (analyze_videos env self videos query)).

(** The seconds of [time.sleep] between the attempts. *)
Definition backoff (trace : list event) : Z :=
  fold_right (fun ev total =>
                match ev with
                | Sleep s => s + total
                | _ => total
                end) 0 trace.

Definition configurations (trace : list event) : nat :=
  List.length (filter (fun ev => match ev with
                                 | Configure => true
                                 | _ => false
                                 end) trace).

Definition wrap (r : result (list scored)) : result (option (list scored)) :=
  out <- r ;; Ok (Some out).

Lemma attempts_outcomes (env : environment) (videos : list video)
  (trace : list event) :
  attempts env videos (seq 0 MAX_RETRIES) trace
  = match attempt_result env videos 0 with
    | Ok r => (Ok (Some r), trace ++ [RateLimit; Request 0])
    | Raise _ =>
        match attempt_result env videos 1 with
        | Ok r =>
            (Ok (Some r),
             trace ++ [RateLimit; Request 0; Sleep 1; RateLimit; Request 1])
        | Raise _ =>
            (wrap (match attempt_result env videos 2 with
                   | Ok r => Ok r
                   | Raise _ => _create_fallback videos
                   end),
             trace ++ [RateLimit; Request 0; Sleep 1; RateLimit; Request 1;
                       Sleep 2; RateLimit; Request 2])
        end
    end%nat.
Proof.
  unfold attempt_result, MAX_RETRIES. cbn [seq attempts].
  destruct (bind (generate_content env 0%nat) _) as [r0|e0]; [reflexivity|].
  cbn [Nat.ltb Nat.leb Nat.sub].
  destruct (bind (generate_content env 1%nat) _) as [r1|e1];
    [repeat rewrite <- app_assoc; reflexivity|].
  destruct (bind (generate_content env 2%nat) _) as [r2|e2];
    repeat rewrite <- app_assoc; reflexivity.
Qed.

(** The calls before the loop: [configure], unless the analyzer is
    configured already. *)
Definition setup (self : analyzer) : list event :=
  if configured self then [] else [Configure].

Definition rate_limits (trace : list event) : nat :=
  List.length (filter (fun ev => match ev with
                                 | RateLimit => true
                                 | _ => false
                                 end) trace).

Lemma analyze_unfold (env : environment) (self : analyzer)
  (videos : list video) (query : string) :
  can_configure env self ->
  analyze_videos env self videos query
  = match videos with
    | [] => (Ok (Some []), {| configured := true |}, setup self)
    | _ :: _ =>
        let '(r, trace) :=
          attempts env videos (seq 0 MAX_RETRIES) (setup self) in
        (r, {| configured := true |}, trace)
    end.
Proof.
  intros C. unfold analyze_videos, setup.
  destruct (configured self) eqn:S.
  - destruct self as [c]. simpl in S. subst c. reflexivity.
  - destruct C as [C | (k & K & N)]; [congruence|].
    unfold configure. rewrite K.
    destruct (String.eqb k "") eqn:E; [|reflexivity].
    apply String.eqb_eq in E. contradiction.
Qed.

Lemma setup_quiet (self : analyzer) :
  flat_map request_of (setup self) = [] /\
  backoff (setup self) = 0 /\
  rate_limits (setup self) = 0%nat.
Proof. unfold setup. destruct (configured self); repeat split. Qed.

Lemma flat_map_request_app (t u : list event) :
  flat_map request_of t = [] ->
  flat_map request_of (t ++ u) = flat_map request_of u.
Proof. intros H. rewrite flat_map_app, H. reflexivity. Qed.

Lemma backoff_app (t u : list event) :
  backoff (t ++ u) = backoff t + backoff u.
Proof.
  induction t as [|ev t IH]; simpl; [reflexivity|].
  destruct ev; rewrite IH; lia.
Qed.

Lemma rate_limits_app (t u : list event) :
  rate_limits (t ++ u) = (rate_limits t + rate_limits u)%nat.
Proof. unfold rate_limits. rewrite filter_app, length_app. reflexivity. Qed.

Lemma configurations_app (t u : list event) :
  configurations (t ++ u) = (configurations t + configurations u)%nat.
Proof. unfold configurations. rewrite filter_app, length_app. reflexivity. Qed.

(** The observations of one call on a non-empty batch, by the attempt
    that ends the loop. *)
Lemma analyze_outcomes (env : environment) (self : analyzer)
  (videos : list video) (query : string) :
  videos <> [] ->
  can_configure env self ->
  exists r tail,
    analyze_videos env self videos query
    = (r, {| configured := true |}, setup self ++ tail) /\
    ((exists out, attempt_result env videos 0 = Ok out /\
                  r = Ok (Some out) /\
                  tail = [RateLimit; Request 0]) \/
     (exists e0 out, attempt_result env videos 0 = Raise e0 /\
                     attempt_result env videos 1 = Ok out /\
                     r = Ok (Some out) /\
                     tail = [RateLimit; Request 0; Sleep 1;
                             RateLimit; Request 1]) \/
     (exists e0 e1, attempt_result env videos 0 = Raise e0 /\
                    attempt_result env videos 1 = Raise e1 /\
                    r = wrap (match attempt_result env videos 2 with
                              | Ok out => Ok out
                              | Raise _ => _create_fallback videos
                              end) /\
                    tail = [RateLimit; Request 0; Sleep 1;
                            RateLimit; Request 1; Sleep 2;
                            RateLimit; Request 2]))%nat.
Proof.
  intros NE C. rewrite (analyze_unfold env self videos query C).
  destruct videos as [|v vs]; [contradiction|].
  rewrite attempts_outcomes.
  destruct (attempt_result env (v :: vs) 0) as [r0|e0] eqn:A0.
  - eexists. eexists. split; [reflexivity|]. left. eauto.
  - destruct (attempt_result env (v :: vs) 1) as [r1|e1] eqn:A1.
    + eexists. eexists. split; [reflexivity|]. right. left.
      exists e0, r1. auto.
    + eexists. eexists. split; [reflexivity|]. right. right.
      exists e0, e1. auto.
Qed.

(** X13.  The first attempt whose remote call and parse both succeed
    ends the loop: when attempt [k] (of 0, 1, 2) gives a list and every
    earlier attempt raised, in the remote call or in the parser,
    [analyze_videos] returns that list after the requests [0..k] and after
    sleeping [2^k - 1] seconds in all (1 second after the first failure, 2
    after the second). *)
Theorem first_success_returned (env : environment) (self : analyzer)
  (videos : list video) (query : string) (k : nat) (out : list scored) :
  videos <> [] ->
  can_configure env self ->
  (k < MAX_RETRIES)%nat ->
  attempt_result env videos k = Ok out ->
  (forall j, (j < k)%nat -> exists e, attempt_result env videos j = Raise e) ->
  returned env self videos query = Ok (Some out) /\
  requests env self videos query = seq 0 (S k) /\
  backoff (trace_of env self videos query) = 2 ^ Z.of_nat k - 1.
Proof.
  intros NE C K S F.
  destruct (setup_quiet self) as (R & B & _).
  destruct (analyze_outcomes env self videos query NE C) as (r & tail & A & O).
  unfold returned, trace_of. rewrite requests_unfold, A. cbn [fst snd].
  rewrite (flat_map_request_app _ _ R), backoff_app, B.
  unfold MAX_RETRIES in K.
  destruct k as [|[|[|k]]]; [| | |lia].
  - destruct O as [(o & A0 & -> & ->) | [(e0 & o & A0 & _)
                                        | (e0 & e1 & A0 & _)]];
      try congruence.
    rewrite A0 in S. inv S. repeat split.
  - destruct (F 0%nat ltac:(lia)) as [x0 F0].
    destruct O as [(o & A0 & _) | [(e0 & o & _ & A1 & -> & ->)
                                  | (e0 & e1 & _ & A1 & _)]];
      try congruence.
    rewrite A1 in S. inv S. repeat split.
  - destruct (F 0%nat ltac:(lia)) as [x0 F0].
    destruct (F 1%nat ltac:(lia)) as [x1 F1].
    destruct O as [(o & A0 & _) | [(e0 & o & _ & A1 & _)
                                  | (e0 & e1 & _ & _ & -> & ->)]];
      try congruence.
    rewrite S. repeat split.
Qed.

(** The remote service fails once and then answers [text]. *)
Definition recovering (text : string) : environment :=
  {| api_key := Some "key"%string;
     generate_content := fun k =>
       match k with
       | O => Raise RemoteError
       | S _ => Ok text
       end |}.

Lemma first_success_returned_witness :
  returned (recovering ranking_text) fresh [video_a; video_b] "python"
  = Ok (Some (sorted_desc composite_score
                (collect [video_a; video_b] (max_views [video_a; video_b])
                   (entries_of ranking_document)))) /\
  requests (recovering ranking_text) fresh [video_a; video_b] "python"
  = seq 0 2 /\
  backoff (trace_of (recovering ranking_text) fresh [video_a; video_b]
             "python") = 2 ^ Z.of_nat 1 - 1.
Proof.
  apply (first_success_returned (recovering ranking_text) fresh
           [video_a; video_b] "python" 1).
  - discriminate.
  - right. exists "key"%string. split; [reflexivity | discriminate].
  - unfold MAX_RETRIES. lia.
  - vm_compute. reflexivity.
  - intros j Hj. assert (j = 0%nat) as -> by lia.
    exists RemoteError. reflexivity.
Defined.

(** X14.  Whatever the remote service does, one call of
    [analyze_videos] on a non-empty batch sends the requests [0..n-1] for
    some [n] from 1 to 3, in this order, sleeps [2^(n-1) - 1] seconds in
    all, at most 3, and enforces the rate limit once per request. *)
Theorem retry_loop_bounded (env : environment) (self : analyzer)
  (videos : list video) (query : string) :
  videos <> [] ->
  can_configure env self ->
  exists n,
    (1 <= n <= MAX_RETRIES)%nat /\
    requests env self videos query = seq 0 n /\
    backoff (trace_of env self videos query) = 2 ^ Z.of_nat (n - 1) - 1 /\
    rate_limits (trace_of env self videos query) = n.
Proof.
  intros NE C.
  destruct (setup_quiet self) as (R & B & L).
  destruct (analyze_outcomes env self videos query NE C) as (r & tail & A & O).
  unfold trace_of. rewrite requests_unfold, A. cbn [fst snd].
  rewrite (flat_map_request_app _ _ R), backoff_app, B, rate_limits_app, L.
  unfold MAX_RETRIES.
  destruct O as [(o & _ & _ & ->) | [(e0 & o & _ & _ & _ & ->)
                                    | (e0 & e1 & _ & _ & _ & ->)]].
  - exists 1%nat. repeat split; lia.
  - exists 2%nat. repeat split; lia.
  - exists 3%nat. repeat split; lia.
Qed.

Lemma retry_loop_bounded_witness :
  exists n,
    (1 <= n <= MAX_RETRIES)%nat /\
    requests (recovering ranking_text) fresh [video_a] "python" = seq 0 n /\
    backoff (trace_of (recovering ranking_text) fresh [video_a] "python")
    = 2 ^ Z.of_nat (n - 1) - 1 /\
    rate_limits (trace_of (recovering ranking_text) fresh [video_a] "python")
    = n.
Proof.
  apply (retry_loop_bounded (recovering ranking_text) fresh [video_a]
           "python").
  - discriminate.
  - right. exists "key"%string. split; [reflexivity | discriminate].
Defined.

(** ** What a call answers *)

Lemma analyze_total (env : environment) (self : analyzer)
  (videos : list video) (query : string) :
  Forall (fun v => 0 <= views v) videos ->
  can_configure env self ->
  exists out,
    analyze_videos env self videos query
    = (Ok (Some out), {| configured := true |},
       trace_of env self videos query).
Proof.
  intros W C. unfold trace_of.
  destruct videos as [|v vs].
  - rewrite (analyze_unfold env self [] query C). eauto.
  - destruct (analyze_outcomes env self (v :: vs) query) as (r & tail & A & O);
      [discriminate | exact C |].
    rewrite A. cbn [snd].
    destruct O as [(o & _ & -> & _) | [(e0 & o & _ & _ & -> & _)
                                      | (e0 & e1 & _ & _ & -> & _)]];
      eauto.
    destruct (attempt_result env (v :: vs) 2) as [o|e2]; [simpl; eauto|].
    destruct (create_fallback_total (v :: vs) W) as [fb ->]. simpl. eauto.
Qed.

Lemma collect_empty_batch (mx : Z) (entries : list value) :
  collect [] mx entries = [].
Proof.
  induction entries as [|e es IH]; cbn [collect]; [reflexivity|].
  destruct (format_item [] mx e) as [r|] eqn:E; [|exact IH].
  destruct (format_item_inv _ _ _ _ E) as (p & v & _ & _ & _ & _ & Hp & _).
  destruct p; discriminate.
Qed.

(** X15.  Once the analyzer can be configured and no view count is
    negative, [analyze_videos] always returns a list, never [None] and
    never an exception, whatever the remote service answers or raises; the
    list is empty only for the empty batch, and the analyzer is configured
    afterwards. *)
Theorem analyze_always_answers (env : environment) (self : analyzer)
  (videos : list video) (query : string) :
  Forall (fun v => 0 <= views v) videos ->
  can_configure env self ->
  exists out,
    returned env self videos query = Ok (Some out) /\
    (out = [] <-> videos = []) /\
    configured (state_of env self videos query) = true.
Proof.
  intros W C. destruct (analyze_total env self videos query W C) as [out A].
  exists out. unfold returned, state_of. rewrite A. cbn [fst snd].
  split; [reflexivity|]. split; [|reflexivity].
  assert (R : returned env self videos query = Ok (Some out))
    by (unfold returned; rewrite A; reflexivity).
  destruct (analyze_produced _ _ _ _ _ R) as [[-> ->] | P]; [tauto|].
  split.
  - intros E. destruct videos as [|v vs]; [reflexivity|].
    exfalso.
    apply (produced_nonempty (v :: vs) out P); [discriminate | exact E].
  - intros ->. apply analyze_produced in R.
    destruct R as [[_ ->] | [F | (data & F)]]; [reflexivity | |].
    + inv F. reflexivity.
    + apply format_results_inv in F.
      destruct F as [[_ F] | (N & _)]; [inv F; reflexivity|].
      exfalso. apply N, collect_empty_batch.
Qed.

Lemma analyze_always_answers_witness :
  exists out,
    returned failing fresh [video_a; video_b] "python" = Ok (Some out) /\
    (out = [] <-> [video_a; video_b] = []) /\
    configured (state_of failing fresh [video_a; video_b] "python") = true.
Proof.
  apply (analyze_always_answers failing fresh [video_a; video_b] "python").
  - repeat constructor; simpl; lia.
  - right. exists "key"%string. split; [reflexivity | discriminate].
Defined.

(** The analyzer is not configured and the credential is not set, or is
    set to the empty string. *)
Definition cannot_configure (env : environment) (self : analyzer) : Prop :=
  configured self = false /\
  (api_key env = None \/ api_key env = Some ""%string).

Lemma configure_dichotomy (env : environment) (self : analyzer) :
  can_configure env self \/ cannot_configure env self.
Proof.
  unfold can_configure, cannot_configure.
  destruct (configured self); [auto|].
  destruct (api_key env) as [k|]; [|auto].
  destruct (String.eqb_spec k ""); [subst; auto|].
  left. right. exists k. auto.
Qed.

Lemma analyze_unconfigured (env : environment) (self : analyzer)
  (videos : list video) (query : string) :
  cannot_configure env self ->
  analyze_videos env self videos query = (Raise ValueError, self, []).
Proof.
  intros [S K]. unfold analyze_videos, configure. rewrite S.
  destruct K as [-> | ->]; reflexivity.
Qed.

(** X16.  The only exception of [analyze_videos], when no view count
    is negative, is the [ValueError] of the configuration: it is raised
    exactly when the analyzer is not configured and the credential is
    missing or empty, for every batch, before any call to the rate limiter
    or to the remote service, and it leaves the analyzer unconfigured. *)
Theorem raises_only_unconfigured (env : environment) (self : analyzer)
  (videos : list video) (query : string) :
  Forall (fun v => 0 <= views v) videos ->
  (cannot_configure env self ->
   returned env self videos query = Raise ValueError /\
   trace_of env self videos query = [] /\
   state_of env self videos query = self) /\
  (forall e, returned env self videos query = Raise e ->
             e = ValueError /\ cannot_configure env self).
Proof.
  intros W. split.
  - intros N. unfold returned, trace_of, state_of.
    rewrite (analyze_unconfigured env self videos query N).
    repeat split.
  - intros e R. destruct (configure_dichotomy env self) as [C | N].
    + destruct (analyze_total env self videos query W C) as [out A].
      unfold returned in R. rewrite A in R. discriminate.
    + unfold returned in R.
      rewrite (analyze_unconfigured env self videos query N) in R.
      inv R. split; [reflexivity | exact N].
Qed.

(** The credential is set to the empty string. *)
Definition empty_credential : environment :=
  {| api_key := Some ""%string; generate_content := fun _ => Ok "{}"%string |}.

Lemma raises_only_unconfigured_witness :
  (cannot_configure empty_credential fresh ->
   returned empty_credential fresh [video_a] "python" = Raise ValueError /\
   trace_of empty_credential fresh [video_a] "python" = [] /\
   state_of empty_credential fresh [video_a] "python" = fresh) /\
  (forall e, returned empty_credential fresh [video_a] "python" = Raise e ->
             e = ValueError /\ cannot_configure empty_credential fresh).
Proof.
  apply (raises_only_unconfigured empty_credential fresh [video_a] "python").
  repeat constructor; simpl; lia.
Defined.

Lemma attempts_configurations (env : environment) (videos : list video)
  (range : list nat) (trace : list event) :
  configurations (snd (attempts env videos range trace))
  = configurations trace.
Proof.
  revert trace. induction range as [|k range IH]; intros trace;
    [reflexivity|].
  cbn [attempts].
  destruct (bind (generate_content env k) _) as [r|e]; cbn [snd].
  - rewrite configurations_app. unfold configurations. simpl. lia.
  - destruct (k <? MAX_RETRIES - 1)%nat; cbn [snd].
    + rewrite IH. repeat rewrite configurations_app.
      unfold configurations. simpl. lia.
    + rewrite configurations_app. unfold configurations. simpl. lia.
Qed.

Lemma analyze_configurations (env : environment) (self : analyzer)
  (videos : list video) (query : string) :
  can_configure env self ->
  configurations (trace_of env self videos query)
  = (if configured self then 0 else 1)%nat /\
  state_of env self videos query = {| configured := true |}.
Proof.
  intros C. unfold trace_of, state_of.
  rewrite (analyze_unfold env self videos query C).
  assert (S : configurations (setup self)
              = (if configured self then 0 else 1)%nat)
    by (unfold setup; destruct (configured self); reflexivity).
  destruct videos as [|v vs]; [split; [exact S | reflexivity]|].
  pose proof (attempts_configurations env (v :: vs) (seq 0 MAX_RETRIES)
                (setup self)) as A.
  destruct (attempts env (v :: vs) (seq 0 MAX_RETRIES) (setup self))
    as [r trace].
  cbn [fst snd] in *. rewrite A. split; [exact S | reflexivity].
Qed.

(** X17.  The analyzer configures itself at most once: a call that can
    configure makes one [configure] call when the analyzer was not
    configured and none when it was; afterwards every further call, for any
    batch and in any environment, even one where the credential is gone,
    can proceed and makes no [configure] call. *)
Theorem configured_once (env : environment) (self : analyzer)
  (videos : list video) (query : string) :
  can_configure env self ->
  configurations (trace_of env self videos query)
  = (if configured self then 0 else 1)%nat /\
  forall env' videos' query',
    can_configure env' (state_of env self videos query) /\
    configurations
      (trace_of env' (state_of env self videos query) videos' query')
    = 0%nat.
Proof.
  intros C.
  destruct (analyze_configurations env self videos query C) as [K S].
  split; [exact K|]. intros env' videos' query'. rewrite S.
  assert (C' : can_configure env' {| configured := true |})
    by (left; reflexivity).
  split; [exact C'|].
  apply (analyze_configurations env' _ videos' query' C').
Qed.

Lemma configured_once_witness :
  configurations (trace_of failing fresh [video_a] "python")
  = (if configured fresh then 0 else 1)%nat /\
  forall env' videos' query',
    can_configure env' (state_of failing fresh [video_a] "python") /\
    configurations
      (trace_of env' (state_of failing fresh [video_a] "python")
         videos' query')
    = 0%nat.
Proof.
  apply (configured_once failing fresh [video_a] "python").
  right. exists "key"%string. split; [reflexivity | discriminate].
Defined.

(** ** The single best video *)

(** [get_top_video]: the analysis of the first fifty candidates, and
    its head when it is a non-empty list. *)
Definition get_top_video (env : environment) (self : analyzer)
  (videos : list video) (query : string)
  : result (option scored) * analyzer * list event :=
  let '(r, self', trace) :=
    analyze_videos env self (firstn 50 videos) query in
  (bind r (fun analyzed =>
             match analyzed with
             | Some (top :: _) => Ok (Some top)
             | Some [] => Ok None
             | None => Ok None
             end),
   self', trace).

Lemma leb_refl (x : float) : is_nan x = false -> leb x x = true.
Proof.
  intros N. apply FloatOrder.not_ltb_leb; [exact N | exact N|].
  destruct (ltb x x) eqn:E; [|reflexivity].
  rewrite (FloatOrder.ltb_asym x x E) in E. discriminate.
Qed.

Lemma Forall_first (A : Type) (P : A -> Prop) (n : nat) (l : list A) :
  Forall P l -> Forall P (firstn n l).
Proof.
  revert l. induction n as [|n IH]; intros [|a l] H; simpl;
    try constructor.
  - apply (Forall_inv H).
  - apply IH, (Forall_inv_tail H).
Qed.

Lemma well_formed_views (videos : list video) :
  Forall well_formed videos -> Forall (fun v => 0 <= views v) videos.
Proof. apply Forall_impl. intros v [_ H]. exact H. Qed.

Lemma produced_head (videos : list video) (top : scored)
  (rest : list scored) :
  Forall well_formed videos ->
  produced videos (top :: rest) ->
  (hd_error videos = Some (item top) /\
   _create_fallback videos = Ok (top :: rest)) \/
  Forall (fun r => leb (composite_score r) (composite_score top) = true)
         (top :: rest).
Proof.
  intros W P.
  assert (F : forall fb, _create_fallback videos = Ok fb ->
                fb = top :: rest -> hd_error videos = Some (item top)).
  { intros fb H E. apply create_fallback_items in H. subst fb.
    rewrite <- H. reflexivity. }
  destruct P as [H | (data & H)]; [left; split; eauto|].
  destruct (format_results_inv _ _ _ H) as [[_ H'] | (_ & _ & S)];
    [left; split; eauto|].
  right.
  pose proof (sorted_desc_sorted composite_score _
                (collect_composite_not_nan videos (entries_of data) W)) as T.
  rewrite <- S in T. apply StronglySorted_inv in T. destruct T as [_ T].
  constructor; [|exact T].
  apply leb_refl.
  assert (I : In top (collect videos (max_views videos) (entries_of data))).
  { apply (sorted_desc_In composite_score). rewrite <- S. left. reflexivity. }
  pose proof (collect_composite_not_nan videos (entries_of data) W) as N.
  rewrite Forall_forall in N. apply N, I.
Qed.

(** X18.  For well-formed candidates and an analyzer that can be
    configured, [get_top_video] answers [None] exactly for the empty list,
    and then without any request.  Otherwise it answers the head of the
    analysis of the first fifty candidates: a result for one of these
    fifty, which either has the largest composite score of that analysis
    or, when the analysis is the fallback list, is the result of the
    first candidate (the fallback list is not sorted). *)
Theorem top_video_choice (env : environment) (self : analyzer)
  (videos : list video) (query : string) :
  Forall well_formed videos ->
  can_configure env self ->
  let answer := fst (fst (get_top_video env self videos query)) in
  (videos = [] ->
   answer = Ok None /\
   flat_map request_of (snd (get_top_video env self videos query)) = []) /\
  (videos <> [] ->
   exists top rest,
     answer = Ok (Some top) /\
     returned env self (firstn 50 videos) query = Ok (Some (top :: rest)) /\
     In (item top) (firstn 50 videos) /\
     ((hd_error videos = Some (item top) /\
       _create_fallback (firstn 50 videos) = Ok (top :: rest)) \/
      Forall (fun r => leb (composite_score r) (composite_score top) = true)
             (top :: rest))).
Proof.
  intros W C answer. unfold answer, get_top_video. clear answer. split.
  - intros ->. cbn [firstn].
    rewrite (analyze_unfold env self [] query C). cbn [fst snd bind].
    split; [reflexivity | apply setup_quiet].
  - intros NE.
    assert (W50 : Forall well_formed (firstn 50 videos))
      by (apply Forall_first, W).
    destruct (analyze_total env self (firstn 50 videos) query
                (well_formed_views _ W50) C) as [out A].
    assert (R : returned env self (firstn 50 videos) query = Ok (Some out))
      by (unfold returned; rewrite A; reflexivity).
    rewrite A. cbn [fst snd bind].
    destruct (analyze_produced _ _ _ _ _ R) as [[E _] | P].
    { destruct videos; [contradiction | discriminate]. }
    destruct out as [|top rest].
    { exfalso. apply (produced_nonempty _ _ P); [|reflexivity].
      destruct videos; [contradiction | discriminate]. }
    exists top, rest. split; [reflexivity|]. split; [exact R|]. split.
    + pose proof (produced_items _ _ P) as I.
      apply (Forall_inv I).
    + destruct (produced_head _ _ _ W50 P) as [[H F] | H]; [left | right; auto].
      split; [|exact F].
      destruct videos; [contradiction | exact H].
Qed.

Lemma top_video_choice_witness :
  let answer :=
    fst (fst (get_top_video (answering ranking_text) fresh
                [video_a; video_b] "python")) in
  ([video_a; video_b] = [] ->
   answer = Ok None /\
   flat_map request_of
     (snd (get_top_video (answering ranking_text) fresh
             [video_a; video_b] "python")) = []) /\
  ([video_a; video_b] <> [] ->
   exists top rest,
     answer = Ok (Some top) /\
     returned (answering ranking_text) fresh (firstn 50 [video_a; video_b])
       "python" = Ok (Some (top :: rest)) /\
     In (item top) (firstn 50 [video_a; video_b]) /\
     ((hd_error [video_a; video_b] = Some (item top) /\
       _create_fallback (firstn 50 [video_a; video_b]) = Ok (top :: rest)) \/
      Forall (fun r => leb (composite_score r) (composite_score top) = true)
             (top :: rest))).
Proof.
  apply (top_video_choice (answering ranking_text) fresh [video_a; video_b]
           "python").
  - repeat constructor; simpl; lia.
  - right. exists "key"%string. split; [reflexivity | discriminate].
Defined.

(** ** The like ratio of the caller *)

(** [round((likes / view_count * 100), 2) if view_count > 0 else 0], the
    expression of [filter_videos] in script.py that fills the key
    [like_ratio] of every candidate handed to the analyzer. *)
Definition like_ratio_of (likes view_count : Z) : result number :=
  if 0 <? view_count
  then q <- int_truediv likes view_count ;; Ok (NFloat (round2 (mul q hundred)))
  else Ok (NInt 0).

Lemma like_ratio_of_nonneg (likes view_count : Z) (n : number) :
  0 <= likes -> like_ratio_of likes view_count = Ok n ->
  nonneg (to_float n) = true.
Proof.
  intros L. unfold like_ratio_of. destruct (0 <? view_count) eqn:E.
  - apply Z.ltb_lt in E. intros H.
    apply bind_ok in H. destruct H as (q & Hq & H). inv H.
    simpl. apply round2_nonneg, mul_nonneg_r; [|reflexivity].
    unfold int_truediv in Hq. destruct (view_count =? 0); [discriminate|].
    pose proof (quotient_nonneg likes view_count L E) as N.
    destruct (quotient likes view_count); inv Hq; exact N.
  - intros H. inv H. reflexivity.
Qed.

(** X19.  The like ratio that [filter_videos] computes from a like
    count that is not negative meets the data model the analyzer's ranking
    relies on: it is a number not below zero, never a NaN; it is the
    integer 0 when the view count is not positive; it is always defined
    when the likes do not exceed the views; and the only exception of the
    expression is the [OverflowError] of the division, which needs more
    likes than views.  So a candidate built from it with a view count that
    is not negative is well formed. *)
Theorem like_ratio_well_formed (likes view_count : Z) :
  0 <= likes ->
  (view_count <= 0 -> like_ratio_of likes view_count = Ok (NInt 0)) /\
  (likes <= view_count -> exists n, like_ratio_of likes view_count = Ok n) /\
  (forall e, like_ratio_of likes view_count = Raise e ->
             e = OverflowError /\ view_count < likes) /\
  (forall n v,
     like_ratio_of likes view_count = Ok n ->
     like_ratio v = to_float n -> views v = view_count -> 0 <= view_count ->
     leb zero (to_float n) = true /\ well_formed v).
Proof.
  intros L. split; [|split; [|split]].
  - intros H. unfold like_ratio_of.
    rewrite (proj2 (Z.ltb_ge 0 view_count)) by lia. reflexivity.
  - intros H. unfold like_ratio_of. destruct (0 <? view_count) eqn:E; [|eauto].
    apply Z.ltb_lt in E.
    destruct (int_truediv_le likes view_count) as [-> _]; [lia | lia|].
    simpl. eauto.
  - intros e. unfold like_ratio_of.
    destruct (0 <? view_count) eqn:E; [|discriminate].
    apply Z.ltb_lt in E.
    destruct (Z_le_gt_dec likes view_count) as [H | H].
    + destruct (int_truediv_le likes view_count) as [-> _]; [lia | lia|].
      discriminate.
    + unfold int_truediv. rewrite (proj2 (Z.eqb_neq view_count 0)) by lia.
      destruct (quotient likes view_count); simpl; try discriminate.
      intros R. inv R. split; [reflexivity | lia].
  - intros n v H R V P.
    pose proof (like_ratio_of_nonneg likes view_count n L H) as N.
    apply nonneg_leb_zero in N. split; [exact N|].
    split; [rewrite R; exact N | rewrite V; exact P].
Qed.

Lemma like_ratio_well_formed_witness :
  (200 <= 0 -> like_ratio_of 7 200 = Ok (NInt 0)) /\
  (7 <= 200 -> exists n, like_ratio_of 7 200 = Ok n) /\
  (forall e, like_ratio_of 7 200 = Raise e ->
             e = OverflowError /\ 200 < 7) /\
  (forall n v,
     like_ratio_of 7 200 = Ok n ->
     like_ratio v = to_float n -> views v = 200 -> 0 <= 200 ->
     leb zero (to_float n) = true /\ well_formed v).
Proof.
  apply (like_ratio_well_formed 7 200). lia.
Defined.
